(** * convert-deepwiki.py: the page extractor, the index builder and the driver

    A shallow embedding of [src/convert-deepwiki.py] and the properties of
    its specification.

    - [Str]: Python [str] values as lists of Unicode code points, with the
      string methods the script calls ([split], [*], comparison, [str(int)]).
    - [Re]: the fragment of Python's [re] module the script's patterns are
      written in, as a backtracking matcher ([search], [sub], [findall]).
    - [Pathlib]: paths as [pathlib] keeps them.
    - [OS], [Sys]: the file system as the script meets it, the exceptions,
      and the computations of the script over files and standard output.
    - the functions of the script, under their own names.  The class
      [DeepWikiExtractor] is never instantiated and is left out. *)

From Stdlib Require Import String Ascii DecimalString List NArith Arith Bool Lia.
From Stdlib Require Import Sorting.Sorted Sorting.Permutation.
Import ListNotations.

(* ================================================================== *)
(** ** Python strings *)

Module Str.

(** A character is a Unicode code point; a [str] is a sequence of them. *)
Definition char := N.
Definition str := list char.

(** String literals of the source are written [lit "..."]. *)
Definition lit (s : string) : str := map N_of_ascii (list_ascii_of_string s).

Definition ch (a : ascii) : char := N_of_ascii a.

(** The line feed, [\n]. *)
Definition LF : char := 10%N.
Definition nl : str := [LF].

(** The double quote. *)
Definition DQ : char := 34%N.

Definition eqb (a b : str) : bool :=
  if list_eq_dec N.eq_dec a b then true else false.

(** [a < b] on [str]: lexicographic, by code point. *)
Fixpoint ltb (a b : str) : bool :=
  match a, b with
  | [], [] => false
  | [], _ :: _ => true
  | _ :: _, [] => false
  | x :: a', y :: b' =>
      if (x <? y)%N then true
      else if (y <? x)%N then false
      else ltb a' b'
  end.

Definition leb (a b : str) : bool := negb (ltb b a).

(** [s.split(sep)] for a one-character separator: the pieces between the
    separators, never an empty list. *)
Fixpoint split (sep : char) (s : str) : list str :=
  match s with
  | [] => [[]]
  | c :: s' =>
      if (c =? sep)%N then [] :: split sep s'
      else match split sep s' with
           | [] => [[c]]
           | p :: ps => (c :: p) :: ps
           end
  end.

(** [s * n]. *)
Fixpoint mul (s : str) (n : nat) : str :=
  match n with
  | O => []
  | S n' => s ++ mul s n'
  end.

(** [sep.join(parts)]. *)
Fixpoint join (sep : str) (parts : list str) : str :=
  match parts with
  | [] => []
  | [p] => p
  | p :: ps => p ++ sep ++ join sep ps
  end.

(** [str(n)] for a non-negative integer. *)
Definition of_nat (n : nat) : str :=
  lit (NilEmpty.string_of_uint (Nat.to_uint n)).

Fixpoint startswith (p s : str) : bool :=
  match p, s with
  | [], _ => true
  | _ :: _, [] => false
  | x :: p', y :: s' => (x =? y)%N && startswith p' s'
  end.

Definition endswith (p s : str) : bool := startswith (rev p) (rev s).

(** [p in s]. *)
Fixpoint contains (p s : str) : bool :=
  startswith p s ||
  match s with
  | [] => false
  | _ :: s' => contains p s'
  end.

End Str.

Import Str.

(* ================================================================== *)
(** ** The regular expressions of the script

    The patterns the script hands to [re] are sequences of: a literal
    character, a greedy repetition of a character class, a capturing group
    around such a sequence, and [$].  [Re] interprets such sequences the way
    Python's backtracking matcher does: alternatives are tried leftmost
    first, a greedy repetition longest first. *)

Module Re.

Inductive atom :=
| Chr (c : char)                                          (* a literal character *)
| Rep (cls : char -> bool) (lo : nat) (hi : option nat)   (* cls{lo,hi}, greedy *)
| GOpen                                                   (* ( of group 1 *)
| GClose                                                  (* ) of group 1 *)
| Dollar.                                                 (* $ *)

Definition regex := list atom.

(** *** Character classes *)

(** [\s] on a [str] pattern: the Unicode white space characters. *)
Definition space (c : char) : bool :=
  ((9 <=? c) && (c <=? 13) || (28 <=? c) && (c <=? 32) || (c =? 133) || (c =? 160)
   || (c =? 5760) || (8192 <=? c) && (c <=? 8202) || (c =? 8232) || (c =? 8233)
   || (c =? 8239) || (c =? 8287) || (c =? 12288))%N.

(** [.] without [re.DOTALL]: anything but a line feed. *)
Definition dot (c : char) : bool := negb (c =? LF)%N.

(** [[^x]] and [x] as classes. *)
Definition notc (x : char) (c : char) : bool := negb (c =? x)%N.

Definition only (x : char) (c : char) : bool := (c =? x)%N.

Definition star cls := Rep cls 0 None.
Definition plus cls := Rep cls 1 None.

(** A literal run of characters. *)
Definition chars (s : string) : regex := map Chr (lit s).

(** *** Matching *)

(** A match: where it ends and where group 1 starts and ends, as offsets
    into the subject. *)
Record span := Span { m_end : nat; g_start : nat; g_end : nat }.

Definition allows (hi : option nat) : bool :=
  match hi with
  | Some O => false
  | _ => true
  end.

(** [rep cls lo hi k i s]: match [cls{lo,hi}] at offset [i], where [s] is the
    subject from [i] on, then the rest of the pattern, [k].  One more
    character is taken while the class and the bound allow; only when the
    rest fails after it is the shorter repetition tried. *)
Fixpoint rep (cls : char -> bool) (lo : nat) (hi : option nat)
    (k : nat -> str -> option span) (i : nat) (s : str) : option span :=
  let stop := match lo with O => k i s | S _ => None end in
  match s with
  | c :: s' =>
      if cls c && allows hi then
        match rep cls (pred lo) (option_map pred hi) k (S i) s' with
        | Some r => Some r
        | None => stop
        end
      else stop
  | [] => stop
  end.

(** [$] without [re.MULTILINE]: at the end of the subject, or just before a
    line feed that ends it. *)
Definition at_end (s : str) : bool :=
  match s with
  | [] => true
  | [c] => (c =? LF)%N
  | _ => false
  end.

(** [match_here p gs ge i s]: match the pattern [p] at offset [i]. *)
Fixpoint match_here (p : regex) (gs ge : nat) (i : nat) (s : str) : option span :=
  match p with
  | [] => Some (Span i gs ge)
  | Chr c :: p' =>
      match s with
      | c' :: s' => if (c' =? c)%N then match_here p' gs ge (S i) s' else None
      | [] => None
      end
  | Rep cls lo hi :: p' => rep cls lo hi (fun j t => match_here p' gs ge j t) i s
  | GOpen :: p' => match_here p' i ge i s
  | GClose :: p' => match_here p' gs i i s
  | Dollar :: p' => if at_end s then match_here p' gs ge i s else None
  end.

(** [pattern.match] at offset [i]. *)
Definition match_at (p : regex) (i : nat) (s : str) : option span :=
  match_here p i i i s.

(** The offsets from [i] on, leftmost first. *)
Fixpoint search_from (p : regex) (i : nat) (s : str) : option (nat * span) :=
  match match_at p i s with
  | Some r => Some (i, r)
  | None =>
      match s with
      | [] => None
      | _ :: s' => search_from p (S i) s'
      end
  end.

Definition slice (s : str) (a b : nat) : str := firstn (b - a) (skipn a s).

(** A match object: [m.start()], [m.end()], [m.group(1)]. *)
Record match_object := Match { m_start : nat; m_stop : nat; group1 : str }.

(** [re.search(p, s)]. *)
Definition search (p : regex) (s : str) : option match_object :=
  match search_from p 0 s with
  | Some (i, r) => Some (Match i (m_end r) (slice s (g_start r) (g_end r)))
  | None => None
  end.

(** The scan of [re.sub] and [re.findall] over the subject: [skip] characters
    of the last match are still to be passed; [i] is the offset of [s]. *)
Fixpoint sub_from (p : regex) (repl : str) (skip : nat) (i : nat) (s : str) : str :=
  match skip with
  | S n =>
      match s with
      | [] => []
      | _ :: s' => sub_from p repl n (S i) s'
      end
  | O =>
      match match_at p i s with
      | Some r =>
          repl ++
          match s with
          | [] => []
          | c :: s' =>
              match m_end r - i with
              | O => c :: sub_from p repl 0 (S i) s'
              | S n => sub_from p repl n (S i) s'
              end
          end
      | None =>
          match s with
          | [] => []
          | c :: s' => c :: sub_from p repl 0 (S i) s'
          end
      end
  end.

(** [re.sub(p, repl, s)] for a replacement without group references. *)
Definition sub (p : regex) (repl : str) (s : str) : str := sub_from p repl 0 0 s.

Fixpoint findall_from (p : regex) (grouped : bool) (whole : str)
    (skip : nat) (i : nat) (s : str) : list str :=
  match skip with
  | S n =>
      match s with
      | [] => []
      | _ :: s' => findall_from p grouped whole n (S i) s'
      end
  | O =>
      match match_at p i s with
      | Some r =>
          (if grouped then slice whole (g_start r) (g_end r)
           else slice whole i (m_end r)) ::
          match s with
          | [] => []
          | _ :: s' => findall_from p grouped whole (pred (m_end r - i)) (S i) s'
          end
      | None =>
          match s with
          | [] => []
          | _ :: s' => findall_from p grouped whole 0 (S i) s'
          end
      end
  end.

(** [re.findall(p, s)]: group 1 of every match when the pattern has a
    group, the whole match otherwise. *)
Definition findall (p : regex) (s : str) : list str :=
  findall_from p (existsb (fun a => match a with GOpen => true | _ => false end) p)
    s 0 0 s.

End Re.

(* ================================================================== *)
(** ** Paths *)

Module Pathlib.

(** A path is what [pathlib] keeps of it: its [parts], the anchor ([/] or
    [//]) first when the path is absolute. *)
Definition path := list str.

Definition path_eqb (p q : path) : bool :=
  if list_eq_dec (list_eq_dec N.eq_dec) p q then true else false.

Definition is_anchor (c : str) : bool := eqb c (lit "/") || eqb c (lit "//").

Fixpoint leading_slashes (s : str) : nat :=
  match s with
  | c :: s' => if (c =? ch "/")%N then S (leading_slashes s') else 0
  | [] => 0
  end.

(** [Path(s)]: empty and [.] components are dropped; two leading slashes
    are kept apart from one, as POSIX has it. *)
Definition Path (s : str) : path :=
  (match leading_slashes s with
   | 0 => []
   | 2 => [lit "//"]
   | _ => [lit "/"]
   end) ++
  filter (fun c => negb (eqb c [] || eqb c (lit "."))) (split (ch "/") s).

(** [str(p)]. *)
Definition to_str (p : path) : str :=
  match p with
  | [] => lit "."
  | a :: rest => if is_anchor a then a ++ join (lit "/") rest else join (lit "/") p
  end.

(** [p / s]. *)
Definition div (p : path) (s : str) : path :=
  match Path s with
  | a :: q => if is_anchor a then a :: q else p ++ a :: q
  | [] => p
  end.

(** [p.name]. *)
Definition name (p : path) : str :=
  match rev p with
  | [] => []
  | n :: rest => match rest with
                 | [] => if is_anchor n then [] else n
                 | _ => n
                 end
  end.

(** [p.parent]. *)
Definition parent (p : path) : path :=
  match p with
  | [a] => if is_anchor a then p else []
  | _ => removelast p
  end.

(** [s.rfind(c)], counting from [i]. *)
Fixpoint rfind_from (c : char) (i : nat) (s : str) (last : option nat) : option nat :=
  match s with
  | [] => last
  | x :: s' => rfind_from c (S i) s' (if (x =? c)%N then Some i else last)
  end.

(** [p.stem]: the name up to its last dot, when that dot is neither the
    first nor the last character of the name. *)
Definition stem_of_name (n : str) : str :=
  match rfind_from (ch ".") 0 n None with
  | Some i => if (0 <? i) && (i <? length n - 1) then firstn i n else n
  | None => n
  end.

Definition stem (p : path) : str := stem_of_name (name p).

End Pathlib.

Import Pathlib.

(* ================================================================== *)
(** ** The file system and the process *)

Module OS.

(** What a path names: a directory, or a file with its read and write
    permission and its text, as reading it in text mode gives it ([None]:
    bytes that are not UTF-8). *)
Inductive node :=
| Dir
| File (readable writable : bool) (data : option str).

(** The entries of the file system, each directory's in the order the
    system lists them. *)
Definition filesystem := list (path * node).

Fixpoint lookup (fs : filesystem) (p : path) : option node :=
  match fs with
  | [] => None
  | (q, n) :: fs' => if path_eqb q p then Some n else lookup fs' p
  end.

(** Replace what [p] names, or add [p] as the last entry. *)
Definition update (fs : filesystem) (p : path) (n : node) : filesystem :=
  match lookup fs p with
  | Some _ => map (fun e => if path_eqb (fst e) p then (p, n) else e) fs
  | None => fs ++ [(p, n)]
  end.

Definition is_dir (fs : filesystem) (p : path) : bool :=
  match lookup fs p with
  | Some Dir => true
  | _ => false
  end.

Inductive exn :=
| FileNotFoundError
| FileExistsError
| NotADirectoryError
| IsADirectoryError
| PermissionError
| UnicodeDecodeError
| SystemExit (code : nat).

Record world := World { files : filesystem; stdout : list str }.

Inductive result (A : Type) :=
| Ok (a : A)
| Raise (e : exn).
Arguments Ok {A} a.
Arguments Raise {A} e.

(** A computation of the script: it reads and changes the world, and
    returns or raises. *)
Definition M (A : Type) := world -> result A * world.

Definition ret {A} (a : A) : M A := fun w => (Ok a, w).

Definition bind {A B} (m : M A) (f : A -> M B) : M B :=
  fun w =>
    match m w with
    | (Ok a, w') => f a w'
    | (Raise e, w') => (Raise e, w')
    end.

Definition raise {A} (e : exn) : M A := fun w => (Raise e, w).

(** The exit status of the interpreter after running [m] as the main
    program: 0 when it returns, the argument of [sys.exit], 1 after an
    exception nobody caught. *)
Definition exit_code {A} (r : result A) : nat :=
  match r with
  | Ok _ => 0
  | Raise (SystemExit n) => n
  | Raise _ => 1
  end.

End OS.

Import OS.

Declare Scope py_scope.
Delimit Scope py_scope with py.
Notation "x <- m ;; k" := (bind m (fun x => k))
  (at level 61, m at next level, right associativity) : py_scope.
Notation "m ;; k" := (bind m (fun _ => k))
  (at level 61, right associativity) : py_scope.
Open Scope py_scope.

Module Sys.

(** An operation on the file system alone, as a computation. *)
Definition on_files {A} (f : filesystem -> result A * filesystem) : M A :=
  fun w => let (r, fs) := f (files w) in (r, World fs (stdout w)).

(** [print(s)]. *)
Definition print (s : str) : M unit :=
  fun w => (Ok tt, World (files w) (stdout w ++ [s])).

(** [sys.exit(n)]. *)
Definition exit {A} (n : nat) : M A := raise (SystemExit n).

(** [p.exists()]. *)
Definition exists_ (p : path) : M bool :=
  on_files (fun fs =>
    (Ok (match lookup fs p with Some _ => true | None => false end), fs)).

(** [os.mkdir(p)]. *)
Definition os_mkdir (p : path) (fs : filesystem) : result unit * filesystem :=
  match lookup fs p with
  | Some _ => (Raise FileExistsError, fs)
  | None =>
      match lookup fs (parent p) with
      | None => (Raise FileNotFoundError, fs)
      | Some (File _ _ _) => (Raise NotADirectoryError, fs)
      | Some Dir => (Ok tt, fs ++ [(p, Dir)])
      end
  end.

(** [p.mkdir(exist_ok=True)]. *)
Definition mkdir_exist_ok (p : path) (fs : filesystem) : result unit * filesystem :=
  match os_mkdir p fs with
  | (Raise FileNotFoundError, fs') => (Raise FileNotFoundError, fs')
  | (Raise e, fs') => if is_dir fs' p then (Ok tt, fs') else (Raise e, fs')
  | r => r
  end.

(** [p.mkdir(parents=True, exist_ok=True)], as [pathlib] does it: the
    directory itself first, its parents when that fails for want of them;
    [depth] bounds the way up. *)
Fixpoint mkdir_parents (depth : nat) (p : path) (fs : filesystem)
    : result unit * filesystem :=
  match os_mkdir p fs with
  | (Raise FileNotFoundError, fs') =>
      if path_eqb (parent p) p then (Raise FileNotFoundError, fs')
      else
        match depth with
        | O => (Raise FileNotFoundError, fs')
        | S d =>
            match mkdir_parents d (parent p) fs' with
            | (Ok _, fs1) => mkdir_exist_ok p fs1
            | r => r
            end
        end
  | (Raise e, fs') => if is_dir fs' p then (Ok tt, fs') else (Raise e, fs')
  | r => r
  end.

Definition mkdir (p : path) : M unit := on_files (mkdir_parents (length p) p).

(** The names [*.html] matches. *)
Definition html_name (n : str) : bool := endswith (lit ".html") n.

(** The entries of the directory [d] with such a name. *)
Definition html_entry (d : path) (q : path) : bool :=
  path_eqb (removelast q) d && negb (path_eqb q []) && html_name (last q []).

(** What [d.glob("*.html")] finds: in the order the system lists them;
    nothing when [d] is not a directory. *)
Definition listing (d : path) (fs : filesystem) : list path :=
  if is_dir fs d then filter (html_entry d) (map fst fs) else [].

(** [list(d.glob("*.html"))]. *)
Definition glob_html (d : path) : M (list path) :=
  on_files (fun fs => (Ok (listing d fs), fs)).

(** Opening [p] for reading and decoding all of it. *)
Definition read (p : path) (fs : filesystem) : result str :=
  match lookup fs p with
  | None => Raise FileNotFoundError
  | Some Dir => Raise IsADirectoryError
  | Some (File false _ _) => Raise PermissionError
  | Some (File true _ None) => Raise UnicodeDecodeError
  | Some (File true _ (Some s)) => Ok s
  end.

(** [open(p, 'r', encoding='utf-8')] and [f.read()]. *)
Definition read_text (p : path) : M str :=
  on_files (fun fs => (read p fs, fs)).

(** Opening [p] for writing and writing [s]. *)
Definition write (p : path) (s : str) (fs : filesystem) : result unit * filesystem :=
  match lookup fs p with
  | Some Dir => (Raise IsADirectoryError, fs)
  | Some (File _ false _) => (Raise PermissionError, fs)
  | Some (File r true _) => (Ok tt, update fs p (File r true (Some s)))
  | None =>
      match lookup fs (parent p) with
      | None => (Raise FileNotFoundError, fs)
      | Some (File _ _ _) => (Raise NotADirectoryError, fs)
      | Some Dir => (Ok tt, update fs p (File true true (Some s)))
      end
  end.

(** [open(p, 'w', encoding='utf-8')] and [f.write(s)]. *)
Definition write_text (p : path) (s : str) : M unit := on_files (write p s).

End Sys.

Import Sys.

(* ================================================================== *)
(** ** The script *)

(** The dictionary [extract_content_simple] returns, with its three keys. *)
Record page := Page { title : str; filename : str; html : str }.

(** [r'#{1,6}\s+[^\n]+'] *)
Definition header_pattern : Re.regex :=
  [Re.Rep (Re.only (ch "#")) 1 (Some 6); Re.plus Re.space; Re.plus (Re.notc LF)].

(** [r'>([^<]{50,})<'] *)
Definition para_pattern : Re.regex :=
  [Re.Chr (ch ">"); Re.GOpen; Re.Rep (Re.notc (ch "<")) 50 None; Re.GClose;
   Re.Chr (ch "<")].

(** [extract_markdown_from_rsc]: three patterns are written down and never
    used, two are searched for and their matches dropped. *)
Definition extract_markdown_from_rsc (html_content : str) : str :=
  let markdown_parts : list str := [] in
  let mermaid_pattern := lit "```mermaid\s*([\s\S]*?)```" in
  let code_pattern := lit "```(\w*)\s*([\s\S]*?)```" in
  let json_pattern := lit "\{[^{}]*" ++ [DQ] ++ lit "(?:text|content|markdown)" ++ [DQ]
                        ++ lit "[^{}]*\}" in
  let headers := Re.findall header_pattern html_content in
  let paragraphs := Re.findall para_pattern html_content in
  html_content.

(** [r'<title>([^<]+)</title>'] *)
Definition title_pattern : Re.regex :=
  Re.chars "<title>" ++ [Re.GOpen; Re.plus (Re.notc (ch "<")); Re.GClose]
  ++ Re.chars "</title>".

(** [r'\s*\|\s*DeepWiki.*$'] *)
Definition suffix_pattern : Re.regex :=
  [Re.star Re.space; Re.Chr (ch "|"); Re.star Re.space] ++ Re.chars "DeepWiki"
  ++ [Re.star Re.dot; Re.Dollar].

(** The title of a page: lines 91 to 95 of the script. *)
Definition extract_title (content : str) (stem : str) : str :=
  let title_match := Re.search title_pattern content in
  let title := match title_match with
               | Some m => Re.group1 m
               | None => stem
               end in
  Re.sub suffix_pattern [] title.

Definition extract_content_simple (html_file : path) : M page :=
  content <- read_text html_file ;;
  let title := extract_title content (stem html_file) in
  ret (Page title (stem html_file) content).

(** [sorted(l, key=key)]: a stable sort that compares keys with [<] only. *)
Fixpoint insert_by {A} (key : A -> str) (x : A) (l : list A) : list A :=
  match l with
  | [] => [x]
  | y :: l' => if ltb (key y) (key x) then y :: insert_by key x l' else x :: l
  end.

Definition sorted {A} (l : list A) (key : A -> str) : list A :=
  fold_right (insert_by key) [] l.

(** The nesting level of a page: lines 117 and 118. *)
Definition level_of (filename : str) : nat :=
  let parts := split (ch ".") (hd [] (split (ch "-") filename)) in
  length parts.

(** One pass of the loop of [create_index]. *)
Definition index_step (md : str) (page : page) : str :=
  let filename := filename page in
  let title := title page in
  let level := level_of filename in
  let indent := mul (lit "  ") (level - 1) in
  md ++ indent ++ lit "- [" ++ title ++ lit "](" ++ filename ++ lit ".md)" ++ nl.

Definition create_index (pages : list page) (repo : str) : str :=
  let md := lit "# " ++ repo ++ lit " - DeepWiki Documentation" ++ nl ++ nl in
  let md := md ++ lit "This documentation was exported from [DeepWiki](https://deepwiki.com)."
               ++ nl ++ nl in
  let md := md ++ lit "## Table of Contents" ++ nl ++ nl in
  let current_section : str := [] in
  fold_left index_step (sorted pages filename) md.

(** The loop of [main] over the files found. *)
Fixpoint process (html_files : list path) (pages : list page) : M (list page) :=
  match html_files with
  | [] => ret pages
  | html_file :: rest =>
      print (lit "Processing: " ++ name html_file) ;;
      page_info <- extract_content_simple html_file ;;
      process rest (pages ++ [page_info])
  end.

(** The label [main] gives the index (line 151). *)
Definition repo : str := lit "rive-app/rive-runtime".

(** [main], with [sys.argv] as its argument. *)
Definition main (argv : list str) : M unit :=
  if length argv <? 2 then
    print (lit "Usage: python3 convert-deepwiki.py <html-dir> [output-dir]") ;;
    exit 1
  else
    let html_dir := Path (nth 1 argv []) in
    let output_dir := if 2 <? length argv then Path (nth 2 argv [])
                      else div html_dir (lit "markdown") in
    found <- exists_ html_dir ;;
    if negb found then
      print (lit "Error: Directory not found: " ++ to_str html_dir) ;;
      exit 1
    else
      mkdir output_dir ;;
      html_files <- glob_html html_dir ;;
      print (lit "Found " ++ of_nat (length html_files) ++ lit " HTML files") ;;
      pages <- process html_files [] ;;
      let index_content := create_index pages repo in
      let index_file := div output_dir (lit "index.md") in
      write_text index_file index_content ;;
      print (nl ++ lit "Created index at: " ++ to_str index_file) ;;
      print (nl ++ lit "Note: Full markdown extraction requires JavaScript rendering.") ;;
      print (lit "Consider using Puppeteer or Playwright for complete extraction.").

(** Running the script: the exit status and the world it leaves. *)
Definition run (argv : list str) (w : world) : nat * world :=
  let (r, w') := main argv w in (exit_code r, w').

(* ================================================================== *)
(** ** The class [DeepWikiExtractor]

    The three handlers of the class, as functions on the fields of the
    object, and the calls [HTMLParser] makes of them when it is fed a
    document: one per start tag, end tag and run of text, tag names in
    lower case. *)

Module DeepWikiExtractor.

(** The fields [__init__] sets. *)
Record t := Make { content : list str; in_script : bool; script_content : str }.

(** [__init__]. *)
Definition init : t := Make [] false [].

Definition attributes := list (str * option str).

Definition handle_starttag (self : t) (tag : str) (attrs : attributes) : t :=
  if eqb tag (lit "script") then Make (content self) true []
  else self.

Definition handle_endtag (self : t) (tag : str) : t :=
  if eqb tag (lit "script") then
    match script_content self with
    | [] => Make (content self) false (script_content self)
    | _ :: _ =>
        Make (content self ++ [script_content self]) false (script_content self)
    end
  else self.

Definition handle_data (self : t) (data : str) : t :=
  if in_script self
  then Make (content self) (in_script self) (script_content self ++ data)
  else self.

(** What the parser calls. *)
Inductive event :=
| StartTag (tag : str) (attrs : attributes)
| EndTag (tag : str)
| Data (data : str).

Definition handle (self : t) (ev : event) : t :=
  match ev with
  | StartTag tag attrs => handle_starttag self tag attrs
  | EndTag tag => handle_endtag self tag
  | Data data => handle_data self data
  end.

(** The calls of one [feed], in the order of the document. *)
Definition feed_events (self : t) (evs : list event) : t := fold_left handle evs self.

(** The event is not a tag named [script]. *)
Definition not_script (ev : event) : Prop :=
  match ev with
  | StartTag tag _ => tag <> lit "script"
  | EndTag tag => tag <> lit "script"
  | Data _ => True
  end.

(** The calls for [<script ...>], the chunks of its text, [</script>]. *)
Definition script_element (attrs : attributes) (chunks : list str) : list event :=
  StartTag (lit "script") attrs :: map Data chunks ++ [EndTag (lit "script")].

End DeepWikiExtractor.

(* ================================================================== *)
(** ** A run, seen from the file system

    The messages apart, a run is a function of the files it finds. *)

(** The record of one file. *)
Definition page_at (fs : filesystem) (f : path) : result page :=
  match read f fs with
  | Ok s => Ok (Page (extract_title s (stem f)) (stem f) s)
  | Raise e => Raise e
  end.

(** The records of the files [l], after [acc], up to the first file that
    cannot be read. *)
Fixpoint pages_of (fs : filesystem) (l : list path) (acc : list page)
    : result (list page) :=
  match l with
  | [] => Ok acc
  | f :: l' =>
      match page_at fs f with
      | Ok p => pages_of fs l' (acc ++ [p])
      | Raise e => Raise e
      end
  end.

Definition html_dir_of (argv : list str) : path := Path (nth 1 argv []).

Definition output_dir_of (argv : list str) : path :=
  if 2 <? length argv then Path (nth 2 argv [])
  else div (html_dir_of argv) (lit "markdown").

Definition index_file_of (argv : list str) : path :=
  div (output_dir_of argv) (lit "index.md").

Definition run_files (argv : list str) (fs : filesystem) : result unit * filesystem :=
  if length argv <? 2 then (Raise (SystemExit 1), fs)
  else
    match lookup fs (html_dir_of argv) with
    | None => (Raise (SystemExit 1), fs)
    | Some _ =>
        match mkdir_parents (length (output_dir_of argv)) (output_dir_of argv) fs with
        | (Ok _, fs1) =>
            match pages_of fs1 (listing (html_dir_of argv) fs1) [] with
            | Ok pages => write (index_file_of argv) (create_index pages repo) fs1
            | Raise e => (Raise e, fs1)
            end
        | (Raise e, fs1) => (Raise e, fs1)
        end
    end.

(** The exceptions of the file system, as opposed to [sys.exit]. *)
Definition is_error (e : exn) : Prop :=
  match e with
  | SystemExit _ => False
  | _ => True
  end.

(** New directories, as entries of the file system. *)
Definition dirs (new : list path) : filesystem := map (fun q => (q, Dir)) new.



Definition found (n : nat) : str := lit "Found " ++ of_nat n ++ lit " HTML files".

Definition processing (f : path) : str := lit "Processing: " ++ name f.

(** [f] can be opened and decoded. *)
Definition readable (fs : filesystem) (f : path) : Prop := exists s, read f fs = Ok s.

(** [p] can be opened for writing: it is a file that may be written, or
    it is not there and the directory it goes into is. *)
Definition write_ok (fs : filesystem) (p : path) : Prop :=
  match lookup fs p with
  | Some Dir => False
  | Some (File _ w _) => w = true
  | None => is_dir fs (parent p) = true
  end.

(** ** The run, as the specification words it *)



(** The records of the files of [l] that can be read. *)
Definition readable_pages (fs : filesystem) (l : list path) : list page :=
  flat_map (fun f => match page_at fs f with
                     | Ok p => [p]
                     | Raise _ => []
                     end) l.

(** "A file that cannot be read is skipped and does not abort the run":
    the run ends well and the index lists the files that can be read. *)
Definition skips_unreadable (argv : list str) (w : world) : Prop :=
  fst (run argv w) = 0
  /\ exists r wr,
       lookup (files (snd (run argv w))) (index_file_of argv)
       = Some (File r wr (Some (create_index
                 (readable_pages (files w) (listing (html_dir_of argv) (files w)))
                 repo))).

(** Some file under [out] has [block] in its text. *)
Definition output_with (fs : filesystem) (out : path) (block : str) : bool :=
  existsb (fun e => path_eqb (firstn (length out) (fst e)) out
                    && match snd e with
                       | File _ _ (Some s) => contains block s
                       | _ => false
                       end) fs.



(** ** Sample directories *)

Definition script : str := lit "convert-deepwiki.py".

Definition wiki : path := [lit "wiki"].

(** A directory with one page. *)
Definition one_page : filesystem :=
  [ ([], Dir); (wiki, Dir);
    (wiki ++ [lit "1-intro.html"],
     File true true
       (Some (lit "<html><title>Intro | DeepWiki</title><body>hello</body></html>"))) ].


(** A directory whose first page may not be read. *)
Definition locked_page : filesystem :=
  [ ([], Dir); (wiki, Dir);
    (wiki ++ [lit "1-a.html"], File false true (Some (lit "<title>A</title>")));
    (wiki ++ [lit "2-b.html"], File true true (Some (lit "<title>B</title>"))) ].

Definition locked_page_out : filesystem :=
  locked_page ++ dirs [wiki ++ [lit "markdown"]].



(** A file where a directory is expected, and the same with an output
    directory beside it. *)
Definition a_file : filesystem :=
  [ ([], Dir); ([lit "notes.html"], File true true (Some (lit "<title>N</title>"))) ].

Definition a_file_out : filesystem := a_file ++ dirs [[lit "out"]].

(** A page with a diagram. *)
Definition diagram : str := nl ++ lit "graph TD; A-->B;" ++ nl.

Definition diagram_page : str :=
  lit "<html><title>Flow</title><body>" ++ lit "```mermaid" ++ diagram ++ lit "```"
  ++ lit "</body></html>".

Definition one_diagram : filesystem :=
  [ ([], Dir); (wiki, Dir);
    (wiki ++ [lit "2-flow.html"], File true true (Some diagram_page)) ].

(* ================================================================== *)
(** ** The index, as the specification words it *)

(** The part of [s] before its first [c]; all of [s] when it has none. *)
Fixpoint before (c : char) (s : str) : str :=
  match s with
  | [] => []
  | x :: s' => if (x =? c)%N then [] else x :: before c s'
  end.

(** The nesting depth of an identifier: the number of dot-separated parts
    of what stands before its first [-]. *)
Definition depth (identifier : str) : nat :=
  S (count_occ N.eq_dec (before (ch "-") identifier) (ch ".")).

(** [<indent>- [<title>](<identifier>.md)], and the end of the line. *)
Definition entry (p : page) : str :=
  mul (lit "  ") (depth (filename p) - 1)
  ++ lit "- [" ++ title p ++ lit "](" ++ filename p ++ lit ".md)" ++ nl.

(** Title, attribution and the heading of the table of contents. *)
Definition index_header (repo : str) : str :=
  lit "# " ++ repo ++ lit " - DeepWiki Documentation" ++ nl ++ nl
  ++ lit "This documentation was exported from [DeepWiki](https://deepwiki.com)."
  ++ nl ++ nl
  ++ lit "## Table of Contents" ++ nl ++ nl.

(** Keys in lexicographic order. *)
Definition key_le {A} (key : A -> str) (a b : A) : Prop := leb (key a) (key b) = true.

(** ** Titles, as the specification words them *)

(** The longest prefix of [s] inside the class, and what follows it. *)
Fixpoint take_while (cls : char -> bool) (s : str) : str :=
  match s with
  | c :: s' => if cls c then c :: take_while cls s' else []
  | [] => []
  end.

Fixpoint drop_while (cls : char -> bool) (s : str) : str :=
  match s with
  | c :: s' => if cls c then drop_while cls s' else s
  | [] => []
  end.



Definition all_space (s : str) : Prop := Forall (fun c => Re.space c = true) s.



(* ================================================================== *)
(** * Properties *)

(** ** Strings *)

Arguments lit : simpl never.

Section StrFacts.

Lemma split_nonempty c s : split c s <> [].
Proof.
  destruct s as [|x s]; simpl; [discriminate|].
  destruct (x =? c)%N; [discriminate|].
  destruct (split c s); discriminate.
Qed.

Lemma split_hd c s : hd [] (split c s) = before c s.
Proof.
  induction s as [|x s IH]; simpl; [reflexivity|].
  destruct (x =? c)%N; [reflexivity|].
  destruct (split c s) as [|p ps] eqn:E.
  - exfalso; exact (split_nonempty _ _ E).
  - simpl in *. now rewrite IH.
Qed.

Lemma split_length c s : length (split c s) = S (count_occ N.eq_dec s c).
Proof.
  induction s as [|x s IH]; simpl; [reflexivity|].
  destruct (N.eqb_spec x c) as [->|Hne].
  - destruct (N.eq_dec c c) as [_|F]; [|now elim F]. simpl. now rewrite IH.
  - destruct (N.eq_dec x c) as [F|_]; [now elim Hne|].
    destruct (split c s) as [|p ps] eqn:E.
    + exfalso; exact (split_nonempty _ _ E).
    + simpl in *. exact IH.
Qed.

Lemma ltb_irrefl a : ltb a a = false.
Proof.
  induction a as [|x a IH]; simpl; [reflexivity|].
  now rewrite N.ltb_irrefl.
Qed.

Lemma ltb_asym a : forall b, ltb a b = true -> ltb b a = false.
Proof.
  induction a as [|x a IH]; intros [|y b]; simpl; try easy.
  destruct (N.ltb_spec x y), (N.ltb_spec y x); try easy; try lia.
  apply IH.
Qed.

Lemma ltb_trans a : forall b c, ltb a b = true -> ltb b c = true -> ltb a c = true.
Proof.
  induction a as [|x a IH]; intros [|y b] [|z c]; simpl; try easy.
  destruct (N.ltb_spec x y), (N.ltb_spec y x), (N.ltb_spec y z),
    (N.ltb_spec z y), (N.ltb_spec x z), (N.ltb_spec z x);
    try easy; try lia.
  apply IH.
Qed.

Lemma ltb_total a : forall b, ltb a b = false -> ltb b a = false -> a = b.
Proof.
  induction a as [|x a IH]; intros [|y b]; simpl; try easy.
  destruct (N.ltb_spec x y), (N.ltb_spec y x); try easy.
  intros H1 H2. f_equal; [lia | now apply IH].
Qed.

Lemma leb_refl a : leb a a = true.
Proof. unfold leb. now rewrite ltb_irrefl. Qed.

Lemma leb_trans a b c : leb a b = true -> leb b c = true -> leb a c = true.
Proof.
  unfold leb. rewrite !negb_true_iff. intros Hba Hcb.
  destruct (ltb c a) eqn:Hca; [|reflexivity].
  destruct (ltb a b) eqn:Hab.
  - pose proof (ltb_trans _ _ _ Hca Hab). congruence.
  - pose proof (ltb_total _ _ Hab Hba). subst. congruence.
Qed.

Lemma ltb_leb a b : ltb a b = true -> leb a b = true.
Proof. unfold leb. intros H. now rewrite (ltb_asym _ _ H). Qed.

End StrFacts.

(** ** Sorting *)

Section Sorting.

Variable A : Type.
Variable key : A -> str.

Lemma insert_by_perm x l : Permutation (insert_by key x l) (x :: l).
Proof.
  induction l as [|y l IH]; simpl; [reflexivity|].
  destruct (ltb (key y) (key x)); [|reflexivity].
  rewrite IH. apply perm_swap.
Qed.

Lemma sorted_perm l : Permutation (sorted l key) l.
Proof.
  induction l as [|x l IH]; simpl; [constructor|].
  rewrite insert_by_perm. now constructor.
Qed.

Lemma insert_by_sorted x l :
  StronglySorted (key_le key) l -> StronglySorted (key_le key) (insert_by key x l).
Proof.
  induction 1 as [|y l Hs IH Hy]; simpl.
  - repeat constructor.
  - destruct (ltb (key y) (key x)) eqn:E.
    + constructor; [exact IH|].
      eapply Permutation_Forall; [symmetry; apply insert_by_perm|].
      constructor; [now apply ltb_leb | exact Hy].
    + assert (Hxy : key_le key x y) by (unfold key_le, leb; now rewrite E).
      constructor; [now constructor|].
      constructor; [exact Hxy|].
      eapply Forall_impl; [|exact Hy].
      intros z Hz. exact (leb_trans _ _ _ Hxy Hz).
Qed.

Lemma sorted_sorted l : StronglySorted (key_le key) (sorted l key).
Proof.
  induction l as [|x l IH]; simpl; [constructor|].
  now apply insert_by_sorted.
Qed.

End Sorting.

(** ** The index builder *)

Lemma level_of_depth s : level_of s = depth s.
Proof.
  unfold level_of, depth. now rewrite split_length, split_hd.
Qed.

Lemma index_step_entry md p : index_step md p = md ++ entry p.
Proof.
  unfold index_step, entry. now rewrite level_of_depth.
Qed.

Lemma fold_index_step l : forall md,
  fold_left index_step l md = md ++ concat (map entry l).
Proof.
  induction l as [|p l IH]; intros md; simpl.
  - now rewrite app_nil_r.
  - now rewrite IH, index_step_entry, <- app_assoc.
Qed.

Lemma create_index_entries pages repo :
  create_index pages repo
  = index_header repo ++ concat (map entry (sorted pages filename)).
Proof.
  unfold create_index, index_header. rewrite fold_index_step.
  now rewrite <- !app_assoc.
Qed.

(** ** The matcher *)

Section ReFacts.

Lemma take_drop_while cls s : take_while cls s ++ drop_while cls s = s.
Proof.
  induction s as [|c s IH]; simpl; [reflexivity|].
  destruct (cls c); simpl; [now rewrite IH | reflexivity].
Qed.

Lemma take_while_all cls s : Forall (fun c => cls c = true) (take_while cls s).
Proof.
  induction s as [|c s IH]; simpl; [constructor|].
  destruct (cls c) eqn:E; now constructor.
Qed.

Lemma drop_while_head cls s c t : drop_while cls s = c :: t -> cls c = false.
Proof.
  induction s as [|x s IH]; simpl; [discriminate|].
  destruct (cls x) eqn:E; [exact IH|].
  intros H. injection H as -> _. exact E.
Qed.


Lemma startswith_app p s : startswith p (p ++ s) = true.
Proof.
  induction p as [|x p IH]; simpl; [reflexivity|].
  now rewrite N.eqb_refl.
Qed.

Lemma skipn_app_exact {A} (p s : list A) : skipn (length p) (p ++ s) = s.
Proof. induction p; simpl; auto. Qed.

Lemma startswith_split p : forall s,
  startswith p s = true -> s = p ++ skipn (length p) s.
Proof.
  induction p as [|x p IH]; intros [|y s]; simpl; try easy.
  rewrite andb_true_iff. intros [Hxy Hp].
  apply N.eqb_eq in Hxy. subst y. f_equal. now apply IH.
Qed.

(** A greedy repetition before something that cannot start inside the class
    takes the longest run, and that is its only try. *)
Lemma rep_greedy cls k :
  (forall c t j, cls c = true -> k j (c :: t) = None) ->
  forall s lo i,
    Re.rep cls lo None k i s
    = if lo <=? length (take_while cls s)
      then k (i + length (take_while cls s)) (drop_while cls s)
      else None.
Proof.
  intros Hk. induction s as [|c s IH]; intros lo i; simpl.
  - destruct lo; simpl; [now rewrite Nat.add_0_r | reflexivity].
  - destruct (cls c) eqn:E; simpl.
    + rewrite IH.
      destruct lo as [|lo]; simpl.
      * rewrite Nat.add_succ_r.
        destruct (k (S (i + _)) _); [reflexivity|]. now apply Hk.
      * rewrite Nat.add_succ_r.
        destruct (lo <=? _); [|reflexivity].
        now destruct (k (S (i + _)) _).
    + destruct lo; simpl; [now rewrite Nat.add_0_r | reflexivity].
Qed.

(** A literal run at the head of a pattern. *)
Lemma match_here_chars l p : forall gs ge i s,
  Re.match_here (map Re.Chr l ++ p) gs ge i s
  = if startswith l s
    then Re.match_here p gs ge (i + length l) (skipn (length l) s)
    else None.
Proof.
  induction l as [|x l IH]; intros gs ge i s; simpl.
  - now rewrite Nat.add_0_r.
  - destruct s as [|y s]; [reflexivity|].
    rewrite (N.eqb_sym x y).
    destruct (y =? x)%N; simpl; [|reflexivity].
    rewrite IH. now rewrite Nat.add_succ_r.
Qed.

(** *** The title pattern *)



(** *** Searching *)




Lemma slice_middle (a x b : str) :
  Re.slice (a ++ x ++ b) (length a) (length a + length x) = x.
Proof.
  unfold Re.slice. rewrite skipn_app_exact.
  replace (length a + length x - length a) with (length x) by lia.
  rewrite firstn_app, Nat.sub_diag, firstn_all. simpl. apply app_nil_r.
Qed.




(** *** The suffix pattern *)

Lemma space_bar c : Re.space c = true -> (c =? ch "|")%N = false.
Proof. intros H. apply N.eqb_neq. intros ->. discriminate. Qed.

Lemma space_D c : Re.space c = true -> (c =? ch "D")%N = false.
Proof. intros H. apply N.eqb_neq. intros ->. discriminate. Qed.

Lemma at_end_dot c t : Re.dot c = true -> Re.at_end (c :: t) = false.
Proof.
  unfold Re.dot. intros H. apply negb_true_iff in H. simpl.
  destruct t; [exact H | reflexivity].
Qed.

Lemma match_suffix i s :
  Re.match_at suffix_pattern i s
  = match drop_while Re.space s with
    | c :: s2 =>
        let s3 := drop_while Re.space s2 in
        let s4 := skipn 8 s3 in
        if (c =? ch "|")%N && startswith (lit "DeepWiki") s3
           && Re.at_end (drop_while Re.dot s4)
        then Some (Re.Span (S (i + length (take_while Re.space s))
                            + length (take_while Re.space s2) + 8
                            + length (take_while Re.dot s4)) i i)
        else None
    | [] => None
    end.
Proof.
  unfold Re.match_at, suffix_pattern, Re.chars, Re.star.
  cbn [app Re.match_here].
  rewrite rep_greedy.
  2:{ intros c t j Hc. cbn [Re.match_here]. now rewrite (space_bar _ Hc). }
  cbn [Nat.leb].
  destruct (drop_while Re.space s) as [|c s2] eqn:E1; [reflexivity|].
  cbv zeta.
  destruct (c =? ch "|")%N eqn:Ec; [|reflexivity].
  rewrite rep_greedy.
  2:{ intros c' t j Hc. change (lit "DeepWiki") with (ch "D" :: lit "eepWiki").
      cbn [map app Re.match_here]. now rewrite (space_D _ Hc). }
  cbn [Nat.leb andb].
  rewrite match_here_chars.
  destruct (startswith (lit "DeepWiki") (drop_while Re.space s2)); [|reflexivity].
  cbn [Re.match_here andb].
  rewrite rep_greedy.
  2:{ intros c' t j Hc. cbn [Re.match_here]. now rewrite (at_end_dot _ _ Hc). }
  cbn [Nat.leb Re.match_here].
  reflexivity.
Qed.






(** *** Substitution *)

Lemma sub_from_skip p repl m : forall i t,
  Re.sub_from p repl (length m) i (m ++ t) = Re.sub_from p repl 0 (i + length m) t.
Proof.
  induction m as [|x m IH]; intros i t; simpl.
  - now rewrite Nat.add_0_r.
  - now rewrite IH, Nat.add_succ_r.
Qed.




End ReFacts.

(** ** The title of a page *)



(** ** The file system *)

Section Files.

Lemma path_eqb_eq p q : path_eqb p q = true <-> p = q.
Proof.
  unfold path_eqb. destruct (list_eq_dec (list_eq_dec N.eq_dec) p q); split; congruence.
Qed.

Lemma path_eqb_refl p : path_eqb p p = true.
Proof. now apply path_eqb_eq. Qed.

Lemma path_eqb_neq p q : path_eqb p q = false <-> p <> q.
Proof.
  unfold path_eqb. destruct (list_eq_dec (list_eq_dec N.eq_dec) p q); split; congruence.
Qed.

Lemma lookup_app fs fs' q :
  lookup (fs ++ fs') q
  = match lookup fs q with
    | Some n => Some n
    | None => lookup fs' q
    end.
Proof.
  induction fs as [|[p n] fs IH]; simpl; [reflexivity|].
  destruct (path_eqb p q); [reflexivity | exact IH].
Qed.

Lemma lookup_map_same fs p n :
  lookup fs p <> None ->
  lookup (map (fun e => if path_eqb (fst e) p then (p, n) else e) fs) p = Some n.
Proof.
  induction fs as [|[q m] fs IH]; simpl; [easy|].
  destruct (path_eqb q p) eqn:E; simpl.
  - now rewrite path_eqb_refl.
  - rewrite E. exact IH.
Qed.


Lemma lookup_update_same fs p n : lookup (update fs p n) p = Some n.
Proof.
  unfold update. destruct (lookup fs p) eqn:E.
  - apply lookup_map_same. congruence.
  - rewrite lookup_app, E. simpl. now rewrite path_eqb_refl.
Qed.





(** *** Directories *)

Lemma os_mkdir_inv p fs r fs' :
  os_mkdir p fs = (r, fs') ->
  (r = Ok tt /\ fs' = fs ++ dirs [p] /\ lookup fs p = None
   /\ lookup fs (parent p) = Some Dir)
  \/ (fs' = fs /\
      ((r = Raise FileExistsError /\ lookup fs p <> None)
       \/ (r = Raise FileNotFoundError /\ lookup fs p = None
           /\ lookup fs (parent p) = None)
       \/ (r = Raise NotADirectoryError /\ lookup fs p = None
           /\ is_dir fs (parent p) = false /\ lookup fs (parent p) <> None))).
Proof.
  unfold os_mkdir, is_dir.
  destruct (lookup fs p) eqn:Ep.
  - intros H. injection H as <- <-. right. split; [reflexivity|]. left. easy.
  - destruct (lookup fs (parent p)) as [[|a b c]|] eqn:Epp;
      intros H; injection H as <- <-.
    + left. easy.
    + right. split; [reflexivity|]. right. right. easy.
    + right. split; [reflexivity|]. right. left. easy.
Qed.

Lemma lookup_dirs new p n : lookup (dirs new) p = Some n -> n = Dir.
Proof.
  induction new as [|q new IH]; simpl; [discriminate|].
  destruct (path_eqb q p); [congruence | exact IH].
Qed.

Lemma is_dir_new fs p : lookup fs p = None -> is_dir (fs ++ dirs [p]) p = true.
Proof.
  intros E. unfold is_dir. rewrite lookup_app, E. simpl. now rewrite path_eqb_refl.
Qed.

Lemma mkdir_exist_ok_inv p fs r fs' :
  mkdir_exist_ok p fs = (r, fs') ->
  is_dir fs (parent p) = true ->
  (lookup fs p <> None -> is_dir fs p = true) ->
  r = Ok tt /\ is_dir fs' p = true /\ (fs' = fs \/ fs' = fs ++ dirs [p]).
Proof.
  unfold mkdir_exist_ok. intros H Hpar Hp.
  destruct (os_mkdir p fs) as [r0 fs0] eqn:E.
  destruct (os_mkdir_inv _ _ _ _ E)
    as [(-> & -> & Hn & _) | (-> & [(-> & Hs) | [(-> & _ & Hn) | (-> & _ & Hn & _)]])].
  - injection H as <- <-. repeat split; [now apply is_dir_new | now right].
  - rewrite (Hp Hs) in H. injection H as <- <-. repeat split; [now apply Hp | now left].
  - unfold is_dir in Hpar. now rewrite Hn in Hpar.
  - congruence.
Qed.

(** [mkdir] only adds directories; when it fails it has added none; when
    it returns, the path is a directory. *)
Lemma mkdir_parents_inv d : forall p fs r fs',
  mkdir_parents d p fs = (r, fs') ->
  exists new,
    fs' = fs ++ dirs new
    /\ match r with
       | Ok _ => is_dir fs' p = true
       | Raise e => new = [] /\ is_error e
       end.
Proof.
  induction d as [|d IH]; intros p fs r fs' H; simpl in H;
    destruct (os_mkdir p fs) as [r0 fs0] eqn:E;
    destruct (os_mkdir_inv _ _ _ _ E)
      as [(-> & -> & Hn & _) | (-> & [(-> & Hs) | [(-> & Hn & Hpn) | (-> & Hn & _)]])].
  - injection H as <- <-. exists [p]. split; [reflexivity | now apply is_dir_new].
  - exists []. rewrite app_nil_r.
    destruct (is_dir fs p) eqn:Ed; injection H as <- <-; now repeat split.
  - exists []. rewrite app_nil_r.
    destruct (path_eqb (parent p) p); injection H as <- <-; now repeat split.
  - exists []. rewrite app_nil_r.
    destruct (is_dir fs p) eqn:Ed; injection H as <- <-; now repeat split.
  - injection H as <- <-. exists [p]. split; [reflexivity | now apply is_dir_new].
  - exists []. rewrite app_nil_r.
    destruct (is_dir fs p) eqn:Ed; injection H as <- <-; now repeat split.
  - destruct (path_eqb (parent p) p).
    { exists []. rewrite app_nil_r. injection H as <- <-. now repeat split. }
    destruct (mkdir_parents d (parent p) fs) as [r1 fs1] eqn:E1.
    destruct (IH _ _ _ _ E1) as (new1 & -> & Hr1).
    destruct r1 as [u|e1].
    + destruct (mkdir_exist_ok_inv _ _ _ _ H Hr1) as (-> & Hd & Hfs).
      * intros Hs. unfold is_dir. rewrite lookup_app, Hn in *.
        destruct (lookup (dirs new1) p) as [n|] eqn:El; [|easy].
        now rewrite (lookup_dirs _ _ _ El).
      * destruct Hfs as [-> | ->].
        -- exists new1. now split.
        -- exists (new1 ++ [p]). split; [|exact Hd].
           unfold dirs. now rewrite map_app, app_assoc.
    + destruct Hr1 as [-> Herr]. injection H as <- <-. exists []. now repeat split.
  - exists []. rewrite app_nil_r.
    destruct (is_dir fs p) eqn:Ed; injection H as <- <-; now repeat split.
Qed.

Lemma removelast_shorter (l : path) : l <> [] -> S (length (removelast l)) = length l.
Proof.
  induction l as [|x [|y l] IH]; intros Hne; [now elim Hne | reflexivity |].
  change (removelast (x :: y :: l)) with (x :: removelast (y :: l)).
  cbn [length]. f_equal. apply IH. discriminate.
Qed.

Lemma parent_shorter p : path_eqb (parent p) p = false -> length (parent p) < length p.
Proof.
  destruct p as [|a [|b r]].
  - intros H. discriminate.
  - unfold parent. destruct (is_anchor a).
    + now rewrite path_eqb_refl.
    + intros _. simpl. lia.
  - intros _. unfold parent.
    assert (H : S (length (removelast (a :: b :: r))) = length (a :: b :: r))
      by (apply removelast_shorter; discriminate).
    lia.
Qed.

(** The bound on the way up is never met: any depth from the length of the
    path on gives the same [mkdir]. *)
Lemma mkdir_parents_depth d : forall d' p fs,
  length p <= d -> length p <= d' ->
  mkdir_parents d p fs = mkdir_parents d' p fs.
Proof.
  induction d as [|d IH]; intros [|d'] p fs Hd Hd'; try reflexivity.
  - destruct p; [|simpl in Hd; lia]. simpl.
    destruct (os_mkdir [] fs) as [[u|[]] fs0]; reflexivity.
  - destruct p; [|simpl in Hd'; lia]. simpl.
    destruct (os_mkdir [] fs) as [[u|[]] fs0]; reflexivity.
  - simpl. destruct (os_mkdir p fs) as [[u|[]] fs0]; try reflexivity.
    destruct (path_eqb (parent p) p) eqn:E; [reflexivity|].
    apply parent_shorter in E.
    now rewrite (IH d' (parent p) fs0) by lia.
Qed.


Lemma lookup_dirs_added fs new q :
  lookup fs q <> None -> lookup (fs ++ dirs new) q = lookup fs q.
Proof.
  intros H. rewrite lookup_app. now destruct (lookup fs q).
Qed.

Lemma is_dir_dirs_added fs new q :
  is_dir fs q = true -> is_dir (fs ++ dirs new) q = true.
Proof.
  unfold is_dir. intros H. rewrite lookup_dirs_added; [exact H|].
  now destruct (lookup fs q).
Qed.

(** *** Writing and listing *)











End Files.

(** ** A run and its files *)

Section Runs.

Lemma extract_content_simple_at f fs o :
  extract_content_simple f (World fs o) = (page_at fs f, World fs o).
Proof.
  unfold extract_content_simple, bind, read_text, on_files, page_at, ret. simpl.
  now destruct (read f fs).
Qed.

Lemma process_step f l acc fs o :
  process (f :: l) acc (World fs o)
  = match page_at fs f with
    | Ok p => process l (acc ++ [p]) (World fs (o ++ [processing f]))
    | Raise e => (Raise e, World fs (o ++ [processing f]))
    end.
Proof.
  cbn [process]. unfold bind at 1. unfold print. cbn [files stdout].
  unfold bind at 1. rewrite extract_content_simple_at.
  now destruct (page_at fs f).
Qed.

Lemma process_files l : forall acc fs o,
  exists o', process l acc (World fs o) = (pages_of fs l acc, World fs o').
Proof.
  induction l as [|f l IH]; intros acc fs o.
  - eexists. reflexivity.
  - rewrite process_step. cbn [pages_of].
    destruct (page_at fs f) as [p|e]; [apply IH | eexists; reflexivity].
Qed.

(** The exit status and the files of a run are those of [run_files]. *)
Lemma main_files argv fs o :
  exists o', main argv (World fs o)
             = (fst (run_files argv fs), World (snd (run_files argv fs)) o').
Proof.
  unfold main, run_files.
  destruct (length argv <? 2).
  { eexists. reflexivity. }
  fold (html_dir_of argv). fold (output_dir_of argv).
  unfold bind at 1. unfold exists_, on_files. cbn [files stdout].
  destruct (lookup fs (html_dir_of argv)) as [n|]; cbn [negb].
  2:{ eexists. reflexivity. }
  unfold bind at 1. unfold mkdir, on_files. cbn [files stdout].
  destruct (mkdir_parents _ (output_dir_of argv) fs) as [[u|e] fs1]; cbn [fst snd].
  2:{ eexists. reflexivity. }
  unfold bind at 1. unfold glob_html, on_files. cbn [files stdout].
  unfold bind at 1. unfold print at 1. cbn [files stdout].
  unfold bind at 1.
  match goal with
  | |- context [process ?l ?a (World ?f ?oo)] =>
      destruct (process_files l a f oo) as [o' ->]
  end.
  destruct (pages_of fs1 _ []) as [pages|e]; cbn [fst snd].
  2:{ eexists. reflexivity. }
  fold (index_file_of argv).
  unfold bind at 1. unfold write_text, on_files. cbn [files stdout].
  destruct (write (index_file_of argv) (create_index pages repo) fs1) as [[[]|e] fs2];
    cbn [fst snd]; eexists; reflexivity.
Qed.

Lemma run_run_files argv w :
  fst (run argv w) = exit_code (fst (run_files argv (files w)))
  /\ files (snd (run argv w)) = snd (run_files argv (files w)).
Proof.
  destruct w as [fs o]. unfold run.
  destruct (main_files argv fs o) as [o' ->]. simpl. easy.
Qed.


End Runs.

(** ** Runs that read every file, and runs that do not *)

Section Outcomes.

Lemma exit_code_error {A} e : is_error e -> exit_code (@Raise A e) = 1.
Proof. now destruct e. Qed.

Lemma read_error f fs e : read f fs = Raise e -> is_error e.
Proof.
  unfold read. destruct (lookup fs f) as [[|[|] w [s|]]|]; intros H;
    try discriminate; now injection H as <-.
Qed.

Lemma page_at_readable fs f : readable fs f -> exists p, page_at fs f = Ok p.
Proof. intros [s Hs]. unfold page_at. rewrite Hs. eauto. Qed.


Lemma pages_of_fail fs pre f post e : forall acc,
  Forall (readable fs) pre -> read f fs = Raise e ->
  pages_of fs (pre ++ f :: post) acc = Raise e.
Proof.
  induction pre as [|g pre IH]; intros acc Hpre Hf; simpl.
  - unfold page_at. now rewrite Hf.
  - inversion Hpre as [|? ? Hg Hpre']; subst.
    destruct (page_at_readable _ _ Hg) as [p Hp]. rewrite Hp. now apply IH.
Qed.

(** The loop stops at the first file that cannot be read. *)
Lemma process_fail fs pre f post e : forall acc o,
  Forall (readable fs) pre -> read f fs = Raise e ->
  process (pre ++ f :: post) acc (World fs o)
  = (Raise e, World fs (o ++ map processing (pre ++ [f]))).
Proof.
  induction pre as [|g pre IH]; intros acc o Hpre Hf.
  - cbn [app]. rewrite process_step. unfold page_at. now rewrite Hf.
  - inversion Hpre as [|? ? Hg Hpre']; subst.
    rewrite <- app_comm_cons, process_step.
    destruct (page_at_readable _ _ Hg) as [p Hp]. rewrite Hp.
    rewrite IH by assumption. cbn [app map]. now rewrite <- app_assoc.
Qed.


Lemma write_ok_write fs p s :
  write_ok fs p ->
  exists rd, write p s fs = (Ok tt, update fs p (File rd true (Some s))).
Proof.
  unfold write_ok, write, is_dir.
  destruct (lookup fs p) as [[|rd w c]|].
  - easy.
  - intros ->. now exists rd.
  - destruct (lookup fs (parent p)) as [[|a b c]|]; try easy. now exists true.
Qed.


(** A run that gets to the files: the arguments are there, what the first
    names exists, the output directory is made. *)
Lemma run_files_reached argv fs fs1 :
  2 <= length argv -> lookup fs (html_dir_of argv) <> None ->
  mkdir_parents (length (output_dir_of argv)) (output_dir_of argv) fs = (Ok tt, fs1) ->
  run_files argv fs
  = match pages_of fs1 (listing (html_dir_of argv) fs1) [] with
    | Ok pages => write (index_file_of argv) (create_index pages repo) fs1
    | Raise e => (Raise e, fs1)
    end.
Proof.
  intros Ha Hh Hm. unfold run_files.
  destruct (Nat.ltb_spec (length argv) 2) as [|_]; [lia|].
  destruct (lookup fs (html_dir_of argv)); [|now elim Hh].
  now rewrite Hm.
Qed.

Lemma contains_app b : forall pre post, contains b (pre ++ b ++ post) = true.
Proof.
  induction pre as [|c pre IH]; intros post.
  - cbn [app]. destruct b as [|x b]; [now destruct post|].
    pose proof (startswith_app (x :: b) post) as H. cbn [app] in H.
    cbn [contains app]. now rewrite H.
  - cbn [app contains]. rewrite IH. apply orb_true_r.
Qed.

End Outcomes.

(** ** What [main] prints when it stops *)

Section Messages.



Lemma main_read_fail argv w fs1 pre f post e :
  2 <= length argv -> lookup (files w) (html_dir_of argv) <> None ->
  mkdir_parents (length (output_dir_of argv)) (output_dir_of argv) (files w)
  = (Ok tt, fs1) ->
  listing (html_dir_of argv) fs1 = pre ++ f :: post ->
  Forall (readable fs1) pre -> read f fs1 = Raise e ->
  main argv w
  = (Raise e,
     World fs1 (stdout w ++ found (length (pre ++ f :: post))
                            :: map processing (pre ++ [f]))).
Proof.
  intros Ha Hh Hm Hl Hpre Hf. destruct w as [fs o]. cbn [files stdout] in *.
  unfold main.
  destruct (Nat.ltb_spec (length argv) 2) as [|_]; [lia|].
  fold (html_dir_of argv). fold (output_dir_of argv).
  unfold bind at 1. unfold exists_, on_files. cbn [files stdout].
  destruct (lookup fs (html_dir_of argv)); [|now elim Hh]. cbn [negb].
  unfold bind at 1. unfold mkdir, on_files. cbn [files stdout]. rewrite Hm.
  unfold bind at 1. unfold glob_html, on_files. cbn [files stdout].
  unfold bind at 1. unfold print at 1. cbn [files stdout].
  unfold bind at 1. rewrite Hl.
  rewrite (process_fail fs1 pre f post e) by assumption.
  unfold found. now rewrite <- app_assoc.
Qed.

End Messages.

(* ================================================================== *)
(** * The claims of the specification *)

(** ** The driver *)




(** C2, as the specification has it, fails: with a first page that may not
    be read and a second that may, the run does not go on to the second; it
    ends with exit code 1 and no index. *)
Lemma skips_unreadable_counterexample :
  ~ skips_unreadable [script; lit "wiki"] (World locked_page []).
Proof.
  intros (H & _). vm_compute in H. discriminate.
Qed.

(** C2, amended: a file that cannot be read ends the run.  The error of
    the read is not caught: [main] raises it at that file, after the line
    that announces the file; the files listed after it are not read,
    [index.md] is not written (the file system is left as the making of the
    output directory left it), and the exit code is 1. *)
Theorem unreadable_file_ends_run argv w fs1 pre f post e :
  2 <= length argv ->
  lookup (files w) (html_dir_of argv) <> None ->
  mkdir_parents (length (output_dir_of argv)) (output_dir_of argv) (files w)
  = (Ok tt, fs1) ->
  listing (html_dir_of argv) fs1 = pre ++ f :: post ->
  Forall (readable fs1) pre ->
  read f fs1 = Raise e ->
  main argv w
  = (Raise e,
     World fs1 (stdout w ++ found (length (pre ++ f :: post))
                            :: map processing (pre ++ [f])))
  /\ fst (run argv w) = 1
  /\ files (snd (run argv w)) = fs1
  /\ (exists new, fs1 = files w ++ dirs new).
Proof.
  intros Ha Hh Hm Hl Hpre Hf.
  pose proof (main_read_fail _ _ _ _ _ _ _ Ha Hh Hm Hl Hpre Hf) as Hmain.
  split; [exact Hmain|].
  unfold run. rewrite Hmain. cbn [fst snd files].
  repeat split.
  - apply exit_code_error. exact (read_error _ _ _ Hf).
  - destruct (mkdir_parents_inv _ _ _ _ _ Hm) as (new & Hnew & _). now exists new.
Qed.

Lemma unreadable_file_ends_run_witness :
  main [script; lit "wiki"] (World locked_page [])
  = (Raise PermissionError,
     World locked_page_out
       (stdout (World locked_page [])
        ++ found (length ([] ++ (wiki ++ [lit "1-a.html"]) :: [wiki ++ [lit "2-b.html"]]))
           :: map processing ([] ++ [wiki ++ [lit "1-a.html"]])))
  /\ fst (run [script; lit "wiki"] (World locked_page [])) = 1
  /\ files (snd (run [script; lit "wiki"] (World locked_page []))) = locked_page_out
  /\ (exists new, locked_page_out = files (World locked_page []) ++ dirs new).
Proof.
  apply (unreadable_file_ends_run [script; lit "wiki"] (World locked_page [])
           locked_page_out [] (wiki ++ [lit "1-a.html"]) [wiki ++ [lit "2-b.html"]]
           PermissionError).
  - simpl. lia.
  - vm_compute. discriminate.
  - vm_compute. reflexivity.
  - vm_compute. reflexivity.
  - constructor.
  - vm_compute. reflexivity.
Defined.

(** ** The page extractor *)

(** C3 fails on the code: after a run over a page with a [mermaid] block,
    the run has ended well and no file of the output directory holds the
    block. *)
Lemma mermaid_block_not_in_output :
  fst (run [script; lit "wiki"] (World one_diagram [])) = 0
  /\ output_with (files (snd (run [script; lit "wiki"] (World one_diagram []))))
       (output_dir_of [script; lit "wiki"])
       (lit "```mermaid" ++ diagram ++ lit "```")
     = false.
Proof. split; vm_compute; reflexivity. Qed.

(** What there is of the block: the record of a readable page holds the
    text of the page unchanged in its content field, and so the block, with
    its fence tag and its inner content. *)
Lemma mermaid_kept_in_record f w wr pre inner post :
  lookup (files w) f
  = Some (File true wr
            (Some (pre ++ (lit "```mermaid" ++ inner ++ lit "```") ++ post))) ->
  exists p,
    extract_content_simple f w = (Ok p, w)
    /\ html p = pre ++ (lit "```mermaid" ++ inner ++ lit "```") ++ post
    /\ contains (lit "```mermaid" ++ inner ++ lit "```") (html p) = true.
Proof.
  intros H. destruct w as [fs o]. cbn [files] in H.
  rewrite extract_content_simple_at. unfold page_at, read. rewrite H.
  eexists. split; [reflexivity|]. cbn [html].
  split; [reflexivity | apply contains_app].
Qed.




Example empty_title_is_skipped :
  extract_title (lit "<title></title><title>B</title>") (lit "1-intro") = lit "B".
Proof. reflexivity. Qed.

Example trailing_space_is_kept :
  extract_title (lit "<title>Foo </title>") (lit "1-intro") = lit "Foo ".
Proof. reflexivity. Qed.

(** C10: the content field of the record of a readable file is the text of
    the file, whole and unchanged, and [extract_markdown_from_rsc] returns
    its argument, whatever its two searches find. *)
Theorem content_passes_through f w wr s :
  lookup (files w) f = Some (File true wr (Some s)) ->
  (exists p, extract_content_simple f w = (Ok p, w)
             /\ html p = s /\ filename p = stem f)
  /\ (forall html_content, extract_markdown_from_rsc html_content = html_content).
Proof.
  intros H. split; [|reflexivity].
  destruct w as [fs o]. cbn [files] in H.
  rewrite extract_content_simple_at. unfold page_at, read. rewrite H.
  eexists. repeat split.
Qed.

Lemma content_passes_through_witness :
  (exists p, extract_content_simple (wiki ++ [lit "2-flow.html"]) (World one_diagram [])
             = (Ok p, World one_diagram [])
             /\ html p = diagram_page
             /\ filename p = stem (wiki ++ [lit "2-flow.html"]))
  /\ (forall html_content, extract_markdown_from_rsc html_content = html_content).
Proof.
  apply (content_passes_through (wiki ++ [lit "2-flow.html"]) (World one_diagram [])
           true diagram_page).
  vm_compute. reflexivity.
Defined.

(** ** The index builder *)

(** C5: the index has one entry for each record, of the form
    [<indent>- [<title>](<identifier>.md)]; the indent is two spaces for each
    level of depth after the first, and the depth is the number of parts,
    split at [.], of what stands before the first [-] of the identifier;
    [1.2-overview] has depth 2. *)
Theorem index_entries pages repo :
  create_index pages repo
  = index_header repo ++ concat (map entry (sorted pages filename))
  /\ Permutation (sorted pages filename) pages
  /\ (forall identifier,
        hd [] (split (ch "-") identifier) = before (ch "-") identifier
        /\ level_of identifier = depth identifier)
  /\ (forall p, entry p = mul (lit "  ") (level_of (filename p) - 1)
                          ++ lit "- [" ++ title p ++ lit "](" ++ filename p
                          ++ lit ".md)" ++ nl)
  /\ level_of (lit "1.2-overview") = 2.
Proof.
  repeat split.
  - apply create_index_entries.
  - apply sorted_perm.
  - apply split_hd.
  - apply level_of_depth.
  - intros p. unfold entry. now rewrite level_of_depth.
Qed.

(** C6: the entries of the index come in the order of their identifiers,
    compared as strings, character by character: [1.10-x] comes before
    [1.2-y], in whatever order the records are given. *)
Theorem index_order pages repo :
  create_index pages repo
  = index_header repo ++ concat (map entry (sorted pages filename))
  /\ Permutation (sorted pages filename) pages
  /\ StronglySorted (key_le filename) (sorted pages filename)
  /\ (forall t1 h1 t2 h2,
        let x := Page t1 (lit "1.10-x") h1 in
        let y := Page t2 (lit "1.2-y") h2 in
        create_index [x; y] repo = index_header repo ++ entry x ++ entry y
        /\ create_index [y; x] repo = index_header repo ++ entry x ++ entry y).
Proof.
  repeat split.
  - apply create_index_entries.
  - apply sorted_perm.
  - apply sorted_sorted.
  - rewrite create_index_entries.
    change (sorted [Page t1 (lit "1.10-x") h1; Page t2 (lit "1.2-y") h2] filename)
      with [Page t1 (lit "1.10-x") h1; Page t2 (lit "1.2-y") h2].
    cbn [map concat]. now rewrite app_nil_r.
  - rewrite create_index_entries.
    change (sorted [Page t2 (lit "1.2-y") h2; Page t1 (lit "1.10-x") h1] filename)
      with [Page t1 (lit "1.10-x") h1; Page t2 (lit "1.2-y") h2].
    cbn [map concat]. now rewrite app_nil_r.
Qed.



(** ** The driver, again *)





(* ================================================================== *)
(** * Further properties of the code *)

(** ** The class [DeepWikiExtractor] *)

Section Extractor.

Import DeepWikiExtractor.

Lemma eqb_eq a b : eqb a b = true <-> a = b.
Proof.
  unfold eqb. destruct (list_eq_dec N.eq_dec a b); split; congruence.
Qed.

Lemma eqb_neq a b : a <> b -> eqb a b = false.
Proof.
  unfold eqb. destruct (list_eq_dec N.eq_dec a b); congruence.
Qed.

Lemma feed_data self chunks :
  in_script self = true ->
  feed_events self (map Data chunks)
  = Make (content self) true (script_content self ++ concat chunks).
Proof.
  revert self. induction chunks as [|d chunks IH]; intros self Hb.
  - destruct self as [c b sc]. cbn in *. subst b. now rewrite app_nil_r.
  - unfold feed_events. cbn [map fold_left handle concat].
    fold (feed_events (handle_data self d) (map Data chunks)).
    unfold handle_data. rewrite Hb. rewrite IH by reflexivity.
    cbn [content script_content]. now rewrite <- app_assoc.
Qed.

(** X1: outside a script element nothing is kept: tags that are not [script]
    and text leave the object as it is. *)
Theorem extractor_ignores_other_markup self evs :
  in_script self = false ->
  Forall not_script evs ->
  feed_events self evs = self.
Proof.
  intros Hb Hall. induction Hall as [|ev evs Hev _ IH]; [reflexivity|].
  unfold feed_events in *. cbn [fold_left].
  assert (Hstep : handle self ev = self).
  { destruct ev as [tag attrs|tag|data]; cbn [handle not_script] in *.
    - unfold handle_starttag. now rewrite eqb_neq.
    - unfold handle_endtag. now rewrite eqb_neq.
    - unfold handle_data. now rewrite Hb. }
  now rewrite Hstep.
Qed.

Lemma extractor_ignores_other_markup_witness :
  feed_events init [StartTag (lit "p") []; Data (lit "hello"); EndTag (lit "p")] = init.
Proof.
  apply extractor_ignores_other_markup.
  - reflexivity.
  - repeat constructor; discriminate.
Defined.

(** X2: the text of a script element, in however many chunks it comes, is
    kept as one string at the end of [content]; a script without text adds
    nothing; what an earlier, unclosed script had gathered is dropped by
    the new start tag; until the end tag comes, [content] is as it was. *)
Theorem extractor_collects_script self attrs chunks :
  feed_events self (script_element attrs chunks)
  = Make (content self ++ match concat chunks with
                          | [] => []
                          | _ :: _ => [concat chunks]
                          end)
         false (concat chunks)
  /\ feed_events self (StartTag (lit "script") attrs :: map Data chunks)
     = Make (content self) true (concat chunks).
Proof.
  assert (Hopen : feed_events self (StartTag (lit "script") attrs :: map Data chunks)
                  = Make (content self) true (concat chunks)).
  { unfold feed_events. cbn [fold_left handle]. unfold handle_starttag.
    change (eqb (lit "script") (lit "script")) with true. cbv iota.
    fold (feed_events (Make (content self) true []) (map Data chunks)).
    now rewrite feed_data. }
  split; [|exact Hopen].
  unfold script_element. rewrite app_comm_cons.
  unfold feed_events in *. rewrite fold_left_app, Hopen.
  cbn [fold_left handle]. unfold handle_endtag.
  change (eqb (lit "script") (lit "script")) with true.
  cbn [script_content content]. destruct (concat chunks); [|reflexivity].
  now rewrite app_nil_r.
Qed.

Lemma handle_grows self ev :
  exists added,
    content (handle self ev) = content self ++ added
    /\ Forall (fun s => s <> []) added.
Proof.
  destruct ev as [tag attrs|tag|data]; cbn [handle].
  - unfold handle_starttag. destruct (eqb tag (lit "script"));
      exists []; rewrite app_nil_r; now split.
  - unfold handle_endtag. destruct (eqb tag (lit "script")).
    + destruct (script_content self) as [|c sc] eqn:E.
      * exists []. rewrite app_nil_r. now split.
      * exists [c :: sc]. split; [reflexivity|]. now repeat constructor.
    + exists []. rewrite app_nil_r. now split.
  - unfold handle_data. destruct (in_script self);
      exists []; rewrite app_nil_r; now split.
Qed.

(** X3: whatever the document, [content] only grows at its end, and what is
    added is never the empty string. *)
Theorem extractor_content_grows evs : forall self,
  exists added,
    content (feed_events self evs) = content self ++ added
    /\ Forall (fun s => s <> []) added.
Proof.
  induction evs as [|ev evs IH]; intros self.
  - exists []. rewrite app_nil_r. now split.
  - unfold feed_events in *. cbn [fold_left].
    destruct (handle_grows self ev) as (a1 & E1 & H1).
    destruct (IH (handle self ev)) as (a2 & E2 & H2).
    exists (a1 ++ a2). rewrite E2, E1, <- app_assoc. split; [reflexivity|].
    apply Forall_app. now split.
Qed.

(** X4: the text of a script is not forgotten at its end tag: a second
    [</script>], with nothing between, adds the same text once more. *)
Theorem extractor_stray_end_tag self attrs chunks :
  concat chunks <> [] ->
  content (feed_events self (script_element attrs chunks ++ [EndTag (lit "script")]))
  = content self ++ [concat chunks; concat chunks].
Proof.
  intros Hne. unfold feed_events. rewrite fold_left_app.
  fold (feed_events self (script_element attrs chunks)).
  unfold script_element.
  assert (Hopen : feed_events self (StartTag (lit "script") attrs :: map Data chunks)
                  = Make (content self) true (concat chunks)).
  { unfold feed_events. cbn [fold_left handle]. unfold handle_starttag.
    change (eqb (lit "script") (lit "script")) with true. cbv iota.
    fold (feed_events (Make (content self) true []) (map Data chunks)).
    now rewrite feed_data. }
  rewrite app_comm_cons. unfold feed_events in *. rewrite fold_left_app, Hopen.
  cbn [fold_left handle]. unfold handle_endtag.
  change (eqb (lit "script") (lit "script")) with true.
  cbn [script_content content].
  destruct (concat chunks) as [|c sc]; [now elim Hne|].
  cbn [content script_content]. now rewrite <- app_assoc.
Qed.

Lemma extractor_stray_end_tag_witness :
  content (feed_events init
             (script_element [] [lit "var a"; lit " = 1;"] ++ [EndTag (lit "script")]))
  = content init ++ [concat [lit "var a"; lit " = 1;"]; concat [lit "var a"; lit " = 1;"]].
Proof.
  apply extractor_stray_end_tag. discriminate.
Defined.

End Extractor.

(** ** The index builder does not depend on the order of the records *)

Section IndexOrder.

Lemma leb_antisym a b : leb a b = true -> leb b a = true -> a = b.
Proof.
  unfold leb. rewrite !negb_true_iff. intros Hba Hab. now apply ltb_total.
Qed.

Lemma NoDup_map_eq {A B} (f : A -> B) (l : list A) a b :
  NoDup (map f l) -> In a l -> In b l -> f a = f b -> a = b.
Proof.
  induction l as [|x l IH]; simpl; [easy|].
  intros Hnd Ha Hb Hf. inversion Hnd as [|? ? Hx Hnd']; subst.
  destruct Ha as [->|Ha], Hb as [->|Hb]; auto.
  - elim Hx. rewrite Hf. now apply in_map.
  - elim Hx. rewrite <- Hf. now apply in_map.
Qed.

(** Two sorted lists with the same elements are the same list, when no
    two elements have the same key. *)
Lemma sorted_lists_equal {A} (key : A -> str) (l1 : list A) : forall l2,
  StronglySorted (key_le key) l1 -> StronglySorted (key_le key) l2 ->
  Permutation l1 l2 -> NoDup (map key l1) ->
  l1 = l2.
Proof.
  induction l1 as [|a l1 IH]; intros l2 Hs1 Hs2 Hp Hnd.
  - apply Permutation_nil in Hp. now subst.
  - destruct l2 as [|b l2].
    { apply Permutation_sym, Permutation_nil in Hp. discriminate. }
    inversion Hs1 as [|? ? Hs1' Ha]; subst.
    inversion Hs2 as [|? ? Hs2' Hb]; subst.
    assert (Hab : a = b).
    { assert (Hb1 : In b (a :: l1)).
      { apply (Permutation_in _ (Permutation_sym Hp)). now left. }
      assert (Ha2 : In a (b :: l2)).
      { apply (Permutation_in _ Hp). now left. }
      apply (NoDup_map_eq key (a :: l1)); auto; [now left|].
      apply leb_antisym.
      - destruct Hb1 as [->|Hb1]; [apply leb_refl|].
        rewrite Forall_forall in Ha. exact (Ha _ Hb1).
      - destruct Ha2 as [->|Ha2]; [apply leb_refl|].
        rewrite Forall_forall in Hb. exact (Hb _ Ha2). }
    subst b. f_equal. apply IH; auto.
    + now apply Permutation_cons_inv in Hp.
    + now inversion Hnd.
Qed.

(** X5: the index is the same in whatever order the records are given, as
    long as no two records have the same identifier. *)
Theorem index_any_order pages pages' label :
  Permutation pages pages' ->
  NoDup (map filename pages) ->
  create_index pages label = create_index pages' label.
Proof.
  intros Hp Hnd. rewrite !create_index_entries. do 3 f_equal.
  apply (sorted_lists_equal filename).
  - apply (sorted_sorted _ filename).
  - apply (sorted_sorted _ filename).
  - rewrite sorted_perm, Hp. symmetry. apply sorted_perm.
  - eapply Permutation_NoDup; [|exact Hnd].
    apply Permutation_map. symmetry. apply sorted_perm.
Qed.

Lemma index_any_order_witness :
  create_index [Page (lit "B") (lit "2-b") []; Page (lit "A") (lit "1-a") []] repo
  = create_index [Page (lit "A") (lit "1-a") []; Page (lit "B") (lit "2-b") []] repo.
Proof.
  apply index_any_order.
  - apply perm_swap.
  - repeat constructor; simpl; intuition discriminate.
Defined.

End IndexOrder.

(** ** What a run prints, keeps and accepts *)

Section RunFacts.







(** X8: [main] asks whether the first argument exists, not whether it is a
    directory: when it names a file, the run goes on, finds no page, and
    writes the index without entries. *)
Theorem file_as_html_dir argv w fs1 rd wr data :
  2 <= length argv ->
  lookup (files w) (html_dir_of argv) = Some (File rd wr data) ->
  mkdir_parents (length (output_dir_of argv)) (output_dir_of argv) (files w)
  = (Ok tt, fs1) ->
  write_ok fs1 (index_file_of argv) ->
  listing (html_dir_of argv) fs1 = []
  /\ fst (run argv w) = 0
  /\ exists rd',
       lookup (files (snd (run argv w))) (index_file_of argv)
       = Some (File rd' true (Some (index_header repo))).
Proof.
  intros Ha Hh Hm Hw.
  assert (Hl : listing (html_dir_of argv) fs1 = []).
  { destruct (mkdir_parents_inv _ _ _ _ _ Hm) as (new & -> & _).
    unfold listing, is_dir. rewrite lookup_dirs_added by congruence.
    now rewrite Hh. }
  split; [exact Hl|].
  destruct (run_run_files argv w) as [Hc Hf].
  assert (Hne : lookup (files w) (html_dir_of argv) <> None) by congruence.
  rewrite (run_files_reached _ _ _ Ha Hne Hm), Hl in Hc, Hf.
  cbn [pages_of] in Hc, Hf.
  destruct (write_ok_write fs1 _ (create_index [] repo) Hw) as [rd' Hwr].
  rewrite Hwr in Hc, Hf. cbn [fst snd exit_code] in Hc, Hf.
  split; [exact Hc|]. exists rd'. rewrite Hf, lookup_update_same.
  rewrite create_index_entries. cbn [sorted fold_right map concat].
  now rewrite app_nil_r.
Qed.

Lemma file_as_html_dir_witness :
  listing (html_dir_of [script; lit "notes.html"; lit "out"]) a_file_out = []
  /\ fst (run [script; lit "notes.html"; lit "out"] (World a_file [])) = 0
  /\ exists rd',
       lookup (files (snd (run [script; lit "notes.html"; lit "out"] (World a_file []))))
         (index_file_of [script; lit "notes.html"; lit "out"])
       = Some (File rd' true (Some (index_header repo))).
Proof.
  apply (file_as_html_dir [script; lit "notes.html"; lit "out"] (World a_file [])
           a_file_out true true (Some (lit "<title>N</title>"))).
  - simpl. lia.
  - vm_compute. reflexivity.
  - vm_compute. reflexivity.
  - vm_compute. reflexivity.
Defined.

End RunFacts.

(** ** Identifiers and file names *)

Section Identifiers.

Lemma rfind_from_notin c t : forall j last,
  ~ In c t -> rfind_from c j t last = last.
Proof.
  induction t as [|x t IH]; intros j last Hn; simpl; [reflexivity|].
  destruct (N.eqb_spec x c) as [->|_].
  - elim Hn. now left.
  - apply IH. intros H. apply Hn. now right.
Qed.

Lemma rfind_from_last c a t : forall i last,
  ~ In c t -> rfind_from c i (a ++ c :: t) last = Some (i + length a).
Proof.
  induction a as [|x a IH]; intros i last Hn; simpl.
  - rewrite N.eqb_refl, Nat.add_0_r. now apply rfind_from_notin.
  - rewrite IH by assumption. f_equal. lia.
Qed.

Lemma stem_html b : b <> [] -> stem_of_name (b ++ lit ".html") = b.
Proof.
  intros Hb. unfold stem_of_name.
  change (lit ".html") with (ch "." :: lit "html").
  rewrite rfind_from_last by (vm_compute; intuition discriminate).
  cbn [Nat.add]. rewrite length_app.
  change (length (ch "." :: lit "html")) with 5.
  destruct b as [|x b]; [now elim Hb|]. cbn [length].
  destruct (Nat.ltb_spec 0 (S (length b))) as [_|]; [|lia].
  destruct (Nat.ltb_spec (S (length b)) (S (length b) + 5 - 1)) as [_|]; [|lia].
  cbn [andb].
  change (S (length b)) with (length (x :: b)).
  rewrite firstn_app, Nat.sub_diag, firstn_all. cbn [firstn]. apply app_nil_r.
Qed.

Lemma is_anchor_short n : is_anchor n = true -> length n <= 2.
Proof.
  unfold is_anchor. rewrite orb_true_iff.
  intros [H|H]; apply eqb_eq in H; subst; simpl; lia.
Qed.

Lemma name_last d n : is_anchor n = false -> name (d ++ [n]) = n.
Proof.
  intros Hn. unfold name. rewrite rev_app_distr. cbn [rev app].
  destruct (rev d); [now rewrite Hn | reflexivity].
Qed.

Lemma endswith_split p s : endswith p s = true -> exists b, s = b ++ p.
Proof.
  unfold endswith. intros H. apply startswith_split in H.
  exists (rev (skipn (length (rev p)) (rev s))).
  rewrite <- (rev_involutive s) at 1. rewrite H at 1.
  now rewrite rev_app_distr, rev_involutive.
Qed.

Lemma html_name_not_anchor b : is_anchor (b ++ lit ".html") = false.
Proof.
  destruct (is_anchor (b ++ lit ".html")) eqn:E; [|reflexivity].
  apply is_anchor_short in E. rewrite length_app in E.
  change (length (lit ".html")) with 5 in E. lia.
Qed.

(** X9: every file a run finds is [<b>.html] in the directory it lists, and the
    identifier of its record is [<b>]; only the file named [.html] alone
    keeps its whole name as identifier. *)
Theorem found_file_identifier d fs f :
  In f (listing d fs) ->
  exists b,
    f = d ++ [b ++ lit ".html"]
    /\ name f = b ++ lit ".html"
    /\ forall p, page_at fs f = Ok p ->
         filename p = match b with
                      | [] => lit ".html"
                      | _ :: _ => b
                      end.
Proof.
  unfold listing. destruct (is_dir fs d); [|easy].
  rewrite filter_In. unfold html_entry, html_name. intros [_ H].
  apply andb_true_iff in H. destruct H as [H Hend].
  apply andb_true_iff in H. destruct H as [Hd Hne].
  apply path_eqb_eq in Hd. apply negb_true_iff, path_eqb_neq in Hne.
  destruct (endswith_split _ _ Hend) as [b Hb].
  assert (Hf : f = d ++ [b ++ lit ".html"]).
  { rewrite <- Hd, <- Hb. now apply app_removelast_last. }
  exists b. split; [exact Hf|]. split.
  - rewrite Hf. apply name_last, html_name_not_anchor.
  - intros p Hp. unfold page_at in Hp. destruct (read f fs); [|discriminate].
    injection Hp as <-. cbn [filename]. unfold stem.
    rewrite Hf, (name_last _ _ (html_name_not_anchor b)).
    destruct b as [|x b]; [reflexivity|]. now apply stem_html.
Qed.

Lemma found_file_identifier_witness :
  exists b,
    wiki ++ [lit "1-intro.html"] = wiki ++ [b ++ lit ".html"]
    /\ name (wiki ++ [lit "1-intro.html"]) = b ++ lit ".html"
    /\ forall p, page_at one_page (wiki ++ [lit "1-intro.html"]) = Ok p ->
         filename p = match b with
                      | [] => lit ".html"
                      | _ :: _ => b
                      end.
Proof.
  apply (found_file_identifier wiki one_page (wiki ++ [lit "1-intro.html"])).
  vm_compute. now left.
Defined.

End Identifiers.

(** ** What the searches find and what the cleaning removes *)

Section Patterns.

Lemma match_para_some i s r :
  Re.match_at para_pattern i s = Some r ->
  exists X t,
    s = ch ">" :: X ++ ch "<" :: t
    /\ 50 <= length X /\ Forall (fun c => c <> ch "<") X
    /\ Re.g_start r = S i /\ Re.g_end r = S i + length X.
Proof.
  unfold Re.match_at, para_pattern. cbn [Re.match_here].
  destruct s as [|c s]; [discriminate|].
  destruct (N.eqb_spec c (ch ">")) as [->|_]; [|discriminate].
  rewrite rep_greedy.
  2:{ intros c t j Hc. cbn [Re.match_here].
      unfold Re.notc in Hc. apply negb_true_iff in Hc. now rewrite Hc. }
  destruct (Nat.leb_spec 50 (length (take_while (Re.notc (ch "<")) s))) as [Hlen|];
    [|discriminate].
  cbn [Re.match_here].
  destruct (drop_while (Re.notc (ch "<")) s) as [|c t] eqn:Ed; [discriminate|].
  destruct (N.eqb_spec c (ch "<")) as [->|_]; [|discriminate].
  intros H. injection H as <-. cbn [Re.g_start Re.g_end].
  exists (take_while (Re.notc (ch "<")) s), t. repeat split; auto.
  - now rewrite <- Ed, take_drop_while.
  - eapply Forall_impl; [|apply take_while_all].
    intros c Hn. unfold Re.notc in Hn. apply negb_true_iff in Hn.
    now apply N.eqb_neq in Hn.
Qed.

(** What [findall] returns is taken from a match at some offset of the
    subject: group 1 of it when the pattern has a group, all of it
    otherwise. *)
Lemma findall_from_match p grouped whole s : forall skip done x,
  whole = done ++ s ->
  In x (Re.findall_from p grouped whole skip (length done) s) ->
  exists a b r,
    whole = a ++ b /\ Re.match_at p (length a) b = Some r
    /\ x = if grouped then Re.slice whole (Re.g_start r) (Re.g_end r)
           else Re.slice whole (length a) (Re.m_end r).
Proof.
  induction s as [|c s IH]; intros skip done x Hw Hin.
  - destruct skip as [|n]; cbn [Re.findall_from] in Hin; [|easy].
    destruct (Re.match_at p (length done) []) as [r|] eqn:E; [|easy].
    destruct Hin as [<-|[]]. exists done, [], r. now repeat split.
  - assert (Hw' : whole = (done ++ [c]) ++ s) by now rewrite <- app_assoc.
    assert (Hl : S (length done) = length (done ++ [c]))
      by (rewrite length_app; simpl; lia).
    destruct skip as [|n]; cbn [Re.findall_from] in Hin.
    + destruct (Re.match_at p (length done) (c :: s)) as [r|] eqn:E.
      * destruct Hin as [<-|Hin].
        -- exists done, (c :: s), r. now repeat split.
        -- rewrite Hl in Hin. exact (IH _ _ _ Hw' Hin).
      * rewrite Hl in Hin. exact (IH _ _ _ Hw' Hin).
    + rewrite Hl in Hin. exact (IH _ _ _ Hw' Hin).
Qed.

(** X10: every paragraph the second search of [extract_markdown_from_rsc] finds
    is a run of the text between a [>] and the next [<], of at least 50
    characters and without [<]. *)
Theorem paragraphs_found html_content x :
  In x (Re.findall para_pattern html_content) ->
  50 <= length x
  /\ ~ In (ch "<") x
  /\ exists a t, html_content = a ++ ch ">" :: x ++ ch "<" :: t.
Proof.
  unfold Re.findall.
  change (existsb _ para_pattern) with true.
  intros Hin.
  destruct (findall_from_match para_pattern true html_content html_content 0 [] x
              eq_refl Hin) as (a & b & r & Hw & Hm & ->).
  destruct (match_para_some _ _ _ Hm) as (X & t & -> & Hlen & Hall & -> & ->).
  assert (Hs : Re.slice html_content (S (length a)) (S (length a) + length X) = X).
  { rewrite Hw.
    pose proof (slice_middle (a ++ [ch ">"]) X (ch "<" :: t)) as Hsl.
    rewrite length_app, <- app_assoc in Hsl. cbn [length app] in Hsl.
    replace (length a + 1) with (S (length a)) in Hsl by lia. exact Hsl. }
  rewrite Hs. split; [exact Hlen|]. split.
  - intros Hi. rewrite Forall_forall in Hall. now apply (Hall _ Hi).
  - now exists a, t.
Qed.

Lemma paragraphs_found_witness :
  50 <= length (mul (lit "0123456789") 6)
  /\ ~ In (ch "<") (mul (lit "0123456789") 6)
  /\ exists a t,
       lit "<p>" ++ mul (lit "0123456789") 6 ++ lit "</p>"
       = a ++ ch ">" :: mul (lit "0123456789") 6 ++ ch "<" :: t.
Proof.
  apply (paragraphs_found (lit "<p>" ++ mul (lit "0123456789") 6 ++ lit "</p>")).
  vm_compute. now left.
Defined.

(** A repetition that matches has taken a run of its class, within its
    bounds, and the rest of the pattern has matched after the run. *)
Lemma rep_sound cls k s : forall lo hi i r,
  Re.rep cls lo hi k i s = Some r ->
  exists n,
    lo <= n /\ n <= length s
    /\ match hi with Some h => n <= h | None => True end
    /\ Forall (fun c => cls c = true) (firstn n s)
    /\ k (i + n) (skipn n s) = Some r.
Proof.
  induction s as [|c s IH]; intros lo hi i r H; cbn [Re.rep] in H.
  - destruct lo; [|discriminate]. exists 0. rewrite Nat.add_0_r.
    split; [lia|]. split; [simpl; lia|].
    split; [destruct hi; [lia | exact I]|]. split; [constructor | exact H].
  - assert (Hstop : match lo with 0 => k i (c :: s) | S _ => None end = Some r ->
                    exists n, lo <= n /\ n <= length (c :: s)
                      /\ match hi with Some h => n <= h | None => True end
                      /\ Forall (fun c => cls c = true) (firstn n (c :: s))
                      /\ k (i + n) (skipn n (c :: s)) = Some r).
    { destruct lo; [|discriminate]. intros Hk. exists 0. rewrite Nat.add_0_r.
      split; [lia|]. split; [simpl; lia|].
      split; [destruct hi; [lia | exact I]|]. split; [constructor | exact Hk]. }
    destruct (cls c) eqn:Ec; [|exact (Hstop H)].
    destruct (Re.allows hi) eqn:Ea; [|exact (Hstop H)].
    cbn [andb] in H.
    destruct (Re.rep cls (pred lo) (option_map pred hi) k (S i) s) as [r'|] eqn:E;
      [|exact (Hstop H)].
    injection H as ->.
    destruct (IH _ _ _ _ E) as (n & Hlo & Hn & Hhi & Hall & Hk).
    exists (S n). rewrite Nat.add_succ_r. cbn [firstn skipn length].
    split; [lia|]. split; [lia|]. split.
    { destruct hi as [[|h]|]; simpl in *; try easy. lia. }
    split; [now constructor | exact Hk].
Qed.

Lemma match_header_some i s r :
  Re.match_at header_pattern i s = Some r ->
  exists hashes ws text t,
    s = hashes ++ ws ++ text ++ t
    /\ Re.m_end r = i + length (hashes ++ ws ++ text)
    /\ 1 <= length hashes <= 6 /\ Forall (fun c => c = ch "#") hashes
    /\ ws <> [] /\ all_space ws
    /\ text <> [] /\ Forall (fun c => c <> LF) text.
Proof.
  unfold Re.match_at, header_pattern, Re.plus. cbn [Re.match_here].
  intros H.
  destruct (rep_sound _ _ _ _ _ _ _ H) as (n1 & Hlo1 & Hn1 & Hhi1 & Hall1 & H1).
  destruct (rep_sound _ _ _ _ _ _ _ H1) as (n2 & Hlo2 & Hn2 & _ & Hall2 & H2).
  destruct (rep_sound _ _ _ _ _ _ _ H2) as (n3 & Hlo3 & Hn3 & _ & Hall3 & H3).
  cbn [Re.match_here] in H3. injection H3 as <-. cbn [Re.m_end].
  set (s1 := skipn n1 s) in *. set (s2 := skipn n2 s1) in *.
  exists (firstn n1 s), (firstn n2 s1), (firstn n3 s2), (skipn n3 s2).
  assert (L1 : length (firstn n1 s) = n1) by (apply firstn_length_le; lia).
  assert (L2 : length (firstn n2 s1) = n2) by (apply firstn_length_le; lia).
  assert (L3 : length (firstn n3 s2) = n3) by (apply firstn_length_le; lia).
  repeat split.
  - unfold s2, s1. now rewrite !firstn_skipn.
  - rewrite !length_app, L1, L2, L3. lia.
  - lia.
  - lia.
  - eapply Forall_impl; [|exact Hall1].
    intros c Hc. unfold Re.only in Hc. now apply N.eqb_eq in Hc.
  - intros E. rewrite E in L2. simpl in L2. lia.
  - exact Hall2.
  - intros E. rewrite E in L3. simpl in L3. lia.
  - eapply Forall_impl; [|exact Hall3].
    intros c Hc. unfold Re.notc in Hc. apply negb_true_iff in Hc.
    now apply N.eqb_neq in Hc.
Qed.

(** X11: every header the first search of [extract_markdown_from_rsc] finds is a
    piece of the text made of one to six [#], white space, and at least one
    character more; of these last none is a line feed. *)
Theorem headers_found html_content x :
  In x (Re.findall header_pattern html_content) ->
  exists hashes ws text a t,
    html_content = a ++ x ++ t
    /\ x = hashes ++ ws ++ text
    /\ 1 <= length hashes <= 6 /\ Forall (fun c => c = ch "#") hashes
    /\ ws <> [] /\ all_space ws
    /\ text <> [] /\ Forall (fun c => c <> LF) text.
Proof.
  unfold Re.findall.
  change (existsb _ header_pattern) with false.
  intros Hin.
  destruct (findall_from_match header_pattern false html_content html_content 0 [] x
              eq_refl Hin) as (a & b & r & Hw & Hm & ->).
  destruct (match_header_some _ _ _ Hm)
    as (hashes & ws & text & t & -> & Hend & Hh & Hhall & Hws & Hwsall & Ht & Htall).
  exists hashes, ws, text, a, t.
  assert (Hs : Re.slice html_content (length a) (Re.m_end r) = hashes ++ ws ++ text).
  { rewrite Hw, Hend.
    pose proof (slice_middle a (hashes ++ ws ++ text) t) as Hsl.
    now rewrite <- !app_assoc in Hsl. }
  rewrite Hs. repeat split; auto; try lia.
  now rewrite Hw, <- !app_assoc.
Qed.

Lemma headers_found_witness :
  exists hashes ws text a t,
    lit "<p>## Overview</p>" = a ++ lit "## Overview</p>" ++ t
    /\ lit "## Overview</p>" = hashes ++ ws ++ text
    /\ 1 <= length hashes <= 6 /\ Forall (fun c => c = ch "#") hashes
    /\ ws <> [] /\ all_space ws
    /\ text <> [] /\ Forall (fun c => c <> LF) text.
Proof.
  apply (headers_found (lit "<p>## Overview</p>")).
  vm_compute. now left.
Defined.

Lemma at_end_cases s : Re.at_end s = true -> s = [] \/ s = [LF].
Proof.
  destruct s as [|c [|d s]]; simpl; try easy; [now left|].
  intros H. apply N.eqb_eq in H. subst. now right.
Qed.

(** A match of the branding takes everything to the end of the text, or
    to the line feed that ends it. *)
Lemma match_suffix_some i s r :
  Re.match_at suffix_pattern i s = Some r ->
  exists m e,
    s = m ++ e /\ m <> [] /\ (e = [] \/ e = [LF]) /\ Re.m_end r = i + length m.
Proof.
  rewrite match_suffix.
  destruct (drop_while Re.space s) as [|c s2] eqn:E1; [discriminate|].
  cbv zeta.
  remember (skipn 8 (drop_while Re.space s2)) as s4 eqn:Hs4.
  destruct (N.eqb_spec c (ch "|")) as [->|_]; [|discriminate].
  destruct (startswith (lit "DeepWiki") (drop_while Re.space s2)) eqn:E2;
    [|discriminate].
  destruct (Re.at_end (drop_while Re.dot s4)) eqn:E3; [|discriminate].
  cbn [andb]. intros H. injection H as <-. cbn [Re.m_end].
  apply startswith_split in E2. change (length (lit "DeepWiki")) with 8 in E2.
  rewrite <- Hs4 in E2. clear Hs4.
  exists (take_while Re.space s ++ ch "|" :: take_while Re.space s2
          ++ lit "DeepWiki" ++ take_while Re.dot s4),
         (drop_while Re.dot s4).
  repeat split.
  - rewrite <- (take_drop_while Re.space s) at 1. rewrite E1.
    rewrite <- (take_drop_while Re.space s2) at 1. rewrite E2.
    rewrite <- (take_drop_while Re.dot s4) at 1.
    repeat (rewrite <- app_assoc; cbn [app]). reflexivity.
  - destruct (take_while Re.space s); discriminate.
  - now apply at_end_cases.
  - repeat (rewrite length_app; cbn [length]).
    change (length (lit "DeepWiki")) with 8. lia.
Qed.

Lemma sub_from_structure t : forall i,
  exists a m e,
    t = a ++ m ++ e
    /\ Re.sub_from suffix_pattern [] 0 i t = a ++ e
    /\ (e = [] \/ e = [LF])
    /\ (m = [] -> e = []).
Proof.
  induction t as [|c t IH]; intros i.
  - exists [], [], []. repeat split; auto.
  - cbn [Re.sub_from].
    destruct (Re.match_at suffix_pattern i (c :: t)) as [r|] eqn:E.
    + destruct (match_suffix_some _ _ _ E) as (m & e & Hs & Hm & He & Hend).
      exists [], m, e. rewrite Hend.
      destruct m as [|x m]; [now elim Hm|].
      cbn [app] in Hs. injection Hs as <- ->.
      replace (i + length (c :: m) - i) with (S (length m)) by (simpl; lia).
      cbn [app]. rewrite sub_from_skip.
      repeat split; auto; [|discriminate].
      destruct He as [-> | ->]; reflexivity.
    + destruct (IH (S i)) as (a & m & e & -> & Hr & He & Hm).
      exists (c :: a), m, e. rewrite Hr. repeat split; auto.
Qed.

(** X12: the cleaning of a title takes out one piece at most, and only at the
    end: what is left is the text before that piece, and the line feed
    after it when there is one.  So the title is never longer than the text
    it is taken from, and where nothing is taken out it is that text. *)
Theorem cleaning_cuts_the_end content stem :
  exists raw a m e,
    (match Re.search title_pattern content with
     | Some found => raw = Re.group1 found
     | None => raw = stem
     end)
    /\ raw = a ++ m ++ e
    /\ extract_title content stem = a ++ e
    /\ (e = [] \/ e = [LF])
    /\ (m = [] -> extract_title content stem = raw)
    /\ length (extract_title content stem) <= length raw.
Proof.
  unfold extract_title.
  set (raw := match Re.search title_pattern content with
              | Some m => Re.group1 m
              | None => stem
              end).
  destruct (sub_from_structure raw 0) as (a & m & e & Hraw & Hsub & He & Hm).
  exists raw, a, m, e. unfold Re.sub. rewrite Hsub.
  split; [unfold raw; now destruct (Re.search title_pattern content)|].
  split; [exact Hraw|]. split; [reflexivity|]. split; [exact He|]. split.
  - intros ->. rewrite (Hm eq_refl) in *. now rewrite Hraw.
  - rewrite Hraw, !length_app. lia.
Qed.

End Patterns.
